(** * Irksome: time steppers (Runge-Kutta, adaptive, DG-in-time)

    A shallow embedding of [irksome/stepper.py] and
    [irksome/discontinuous_galerkin_stepper.py].

    Python floats are idealised as real numbers: rounding, overflow, NaN and
    infinities are outside the model.  What Python raises is kept: a float
    division by zero, an index out of range, a shape mismatch and a failed
    [assert] are results of the error type below.  The data of a firedrake
    [Function] is a list of [dat]s (one per field of the function space), a
    [dat] being the flat numpy array of its degrees of freedom. *)

From Stdlib Require Import String Reals ZArith Bool PeanoNat List Lia Lra.
Import ListNotations.
Open Scope R_scope.

(** ** Python results *)

Module Py.

Inductive exn : Type :=
| ZeroDivisionError
| IndexError
| KeyError
| ValueError
| TypeError
| AssertionError
| AttributeError (name : string)
| RuntimeError (msg : string)
| LinAlgError
| ConvergenceError.

Inductive result (A : Type) : Type :=
| Ok (a : A)
| Raise (e : exn).

Arguments Ok {A} a.
Arguments Raise {A} e.

Definition bind {A B : Type} (r : result A) (k : A -> result B) : result B :=
  match r with
  | Ok a => k a
  | Raise e => Raise e
  end.

(** [l[i]] on a tuple, list or numpy array with a non-negative index. *)
Definition getitem {A : Type} (l : list A) (i : nat) : result A :=
  match nth_error l i with
  | Some a => Ok a
  | None => Raise IndexError
  end.

(** [d[k]] on a dict whose keys are [0 .. len-1]. *)
Definition getkey {A : Type} (d : list A) (k : nat) : result A :=
  match nth_error d k with
  | Some a => Ok a
  | None => Raise KeyError
  end.

End Py.
Import Py.

Notation "x <- c1 ;; c2" := (Py.bind c1 (fun x => c2))
  (at level 61, c1 at next level, right associativity).

(** ** numpy arrays of degrees of freedom *)

Definition dat := list R.

(** A firedrake [Function]: iterating [f.dat] yields one [dat] per field. *)
Definition Function := list dat.

Fixpoint zipWith {A B C : Type} (f : A -> B -> C) (l : list A) (m : list B)
  : list C :=
  match l, m with
  | a :: l', b :: m' => f a b :: zipWith f l' m'
  | _, _ => []
  end.

Definition vadd (u v : dat) : dat := zipWith Rplus u v.
Definition vsub (u v : dat) : dat := zipWith Rminus u v.
Definition vscale (c : R) (v : dat) : dat := map (Rmult c) v.
Definition vzero (n : nat) : dat := repeat 0 n.

(** [lhs[:] += rhs] for one-dimensional arrays: same shape, or [rhs] of
    shape (1,) broadcast over [lhs]; anything else is a [ValueError]. *)
Definition iadd (lhs rhs : dat) : result dat :=
  if Nat.eqb (length rhs) (length lhs) then Ok (vadd lhs rhs)
  else match rhs with
       | [x] => Ok (map (fun l => l + x) lhs)
       | _ => Raise ValueError
       end.

(** [a - b] on two one-dimensional arrays, with the same broadcasting. *)
Definition np_sub (a b : dat) : result dat :=
  if Nat.eqb (length a) (length b) then Ok (vsub a b)
  else match a, b with
       | [x], _ => Ok (map (fun y => x - y) b)
       | _, [y] => Ok (map (fun x => x - y) a)
       | _, _ => Raise ValueError
       end.

Fixpoint mapi_from {A B : Type} (f : nat -> A -> B) (i : nat) (l : list A)
  : list B :=
  match l with
  | [] => []
  | a :: l' => f i a :: mapi_from f (S i) l'
  end.

Definition list_eq_dec_b (l m : list nat) : bool :=
  if list_eq_dec Nat.eq_dec l m then true else false.

Definition mapi {A B : Type} (f : nat -> A -> B) (l : list A) : list B :=
  mapi_from f 0 l.

(** ** Matrices *)

Definition matrix := list (list R).

Definition dot (u v : list R) : R := fold_right Rplus 0 (zipWith Rmult u v).
Definition mat_vec (M : matrix) (x : list R) : list R := map (fun row => dot row x) M.

Definition eye_row (n i : nat) : list R :=
  map (fun j => if Nat.eqb i j then 1 else 0) (seq 0 n).
Definition eye (n : nat) : matrix := map (eye_row n) (seq 0 n).

(** What [numpy.linalg.solve(M, b)] promises of the [x] it returns. *)
Definition solves (M : matrix) (b x : list R) : Prop :=
  length x = length b /\ mat_vec M x = b.

(** Modelled from the spec: the splitting [AI] of [irksome/getForm.py], which
    is absent from the sources; it "returns A, identity". *)
Definition AI (A : matrix) : matrix * matrix := (A, eye (length A)).

(** ** Butcher tableaux and the Runge-Kutta stepper *)

Module RK.

Record ButcherTableau : Type := {
  A : matrix;
  b : list R;
  btilde : option (list R);
  c : list R;
  order : Z
}.

(** Modelled from the spec: one entry [(gdat, gcur, gmethod)] of [bigBCdata],
    which [getForm] (absent) builds.  [advance] "refreshes boundary-condition
    data to current t" by calling [gmethod(gcur, u0)], which re-evaluates the
    boundary expression [gcur] at the current [t] and [dt] and stores the
    stage boundary value in [gdat]. *)
Record BCdatum : Type := {
  gdat : dat;
  gcur : R -> R -> dat;
  gmethod : dat -> Function -> dat
}.

(** The inputs the assembled stage problem reads when it is solved. *)
Record StageProblem : Type := {
  p_t : R;
  p_dt : R;
  p_u0 : Function;
  p_bcs : list dat;
  p_guess : list dat
}.

(** [NonlinearVariationalSolver]: [solve()] overwrites the stage unknown and
    either returns or raises. *)
Record NLVS : Type := {
  solve : StageProblem -> result unit * list dat
}.

Record TimeStepper : Type := {
  splitting : matrix -> matrix * matrix;
  u0 : Function;
  t : R;
  dt : R;
  num_fields : nat;
  num_stages : nat;
  butcher_tableau : ButcherTableau;
  (** [self.stages]; [self.ks] is [stages.split()] (or [(stages,)]) and
      aliases its data, so one field stands for both. *)
  ks : list dat;
  bigBCdata : list BCdatum;
  solver : NLVS
}.

Definition set_u0 (st : TimeStepper) (u : Function) : TimeStepper :=
  {| splitting := splitting st; u0 := u; t := t st; dt := dt st;
     num_fields := num_fields st; num_stages := num_stages st;
     butcher_tableau := butcher_tableau st; ks := ks st;
     bigBCdata := bigBCdata st; solver := solver st |}.

Definition set_dt (st : TimeStepper) (d : R) : TimeStepper :=
  {| splitting := splitting st; u0 := u0 st; t := t st; dt := d;
     num_fields := num_fields st; num_stages := num_stages st;
     butcher_tableau := butcher_tableau st; ks := ks st;
     bigBCdata := bigBCdata st; solver := solver st |}.

Definition set_ks (st : TimeStepper) (k : list dat) : TimeStepper :=
  {| splitting := splitting st; u0 := u0 st; t := t st; dt := dt st;
     num_fields := num_fields st; num_stages := num_stages st;
     butcher_tableau := butcher_tableau st; ks := k;
     bigBCdata := bigBCdata st; solver := solver st |}.

Definition set_bigBCdata (st : TimeStepper) (d : list BCdatum) : TimeStepper :=
  {| splitting := splitting st; u0 := u0 st; t := t st; dt := dt st;
     num_fields := num_fields st; num_stages := num_stages st;
     butcher_tableau := butcher_tableau st; ks := ks st;
     bigBCdata := d; solver := solver st |}.

(** [TimeStepper.__init__], given what [getForm] (absent) returns for the
    arguments: the stage unknown and the boundary data, and the solver built
    for them.  [self.ks] is [(stages,)] for one stage and one field and
    [stages.split()] otherwise: in both cases the components of [stages]. *)
Definition __init__ (bt : ButcherTableau) (t0 dt0 : R) (u : Function)
  (splitting0 : matrix -> matrix * matrix) (stages0 : list dat)
  (bigBCdata0 : list BCdatum) (solver0 : NLVS) : TimeStepper :=
  {| splitting := splitting0; u0 := u; t := t0; dt := dt0;
     num_fields := length u; num_stages := length (b bt);
     butcher_tableau := bt; ks := stages0; bigBCdata := bigBCdata0;
     solver := solver0 |}.

(** The two nested loops shared by [_update] and [_estimate_error]:

      for s in range(ns):
          for i, d in enumerate(target.dat):
              d.data[:] += dtc * weight * ks[nf*s+i].dat.data_ro

    [weight s i] is the subscript expression the caller writes for the
    weight.  An exception leaves the arrays as they are at that point. *)
Fixpoint accumulate_fields (dtc : R) (weight : nat -> result R)
  (stage_ks : list dat) (base i : nat) (target : list dat)
  : result unit * list dat :=
  match target with
  | [] => (Ok tt, [])
  | d :: rest =>
      match (w <- weight i ;;
             k <- getitem stage_ks (base + i) ;;
             iadd d (vscale (dtc * w) k)) with
      | Raise e => (Raise e, target)
      | Ok d' =>
          let (r, rest') := accumulate_fields dtc weight stage_ks base (S i) rest in
          (r, d' :: rest')
      end
  end.

Fixpoint accumulate_stages (dtc : R) (weight : nat -> nat -> result R)
  (stage_ks : list dat) (nf : nat) (stages : list nat) (target : list dat)
  : result unit * list dat :=
  match stages with
  | [] => (Ok tt, target)
  | s :: later =>
      match accumulate_fields dtc (weight s) stage_ks (nf * s) 0 target with
      | (Ok _, target') => accumulate_stages dtc weight stage_ks nf later target'
      | (Raise e, target') => (Raise e, target')
      end
  end.

(** The sum over the stages of [weight s i * ks[nf*s+i]], for arrays of
    length [n]. *)
Fixpoint stage_sum (weight : nat -> nat -> R) (stage_ks : list dat)
  (nf i n : nat) (stages : list nat) : dat :=
  match stages with
  | [] => vzero n
  | s :: later =>
      vadd (vscale (weight s i) (nth (nf * s + i) stage_ks []))
           (stage_sum weight stage_ks nf i n later)
  end.

(** Every stage component that the loops read exists and has the shape of
    the field it is added to. *)
Definition stages_fit (stage_ks : list dat) (nf : nat) (stages : list nat)
  (target : list dat) : Prop :=
  forall s j d, In s stages -> nth_error target j = Some d ->
    exists k, nth_error stage_ks (nf * s + j) = Some k /\ length k = length d.

(** The increment [dt * sum_s x[s] * k_{s,i}] of field [i]. *)
Definition rk_increment (dtc : R) (x : list R) (stage_ks : list dat)
  (nf ns i n : nat) : dat :=
  vscale dtc (stage_sum (fun s _ => nth s x 0) stage_ks nf i n (seq 0 ns)).

Section RungeKutta.

(** [numpy.linalg.solve] is a library function. *)
Variable linalg_solve : matrix -> list R -> result (list R).

(** [TimeStepper._update] *)
Definition _update (st : TimeStepper) : result unit * TimeStepper :=
  let b0 := b (butcher_tableau st) in
  let dtc := dt st in
  let ns := num_stages st in
  let nf := num_fields st in
  let '(A1, A2) := splitting st (A (butcher_tableau st)) in
  match linalg_solve A2 b0 with
  | Raise e => (Raise e, st)
  | Ok b1 =>
      let (r, u) :=
        accumulate_stages dtc (fun s _ => getitem b1 s) (ks st) nf (seq 0 ns) (u0 st) in
      (r, set_u0 st u)
  end.

(** The loop over [bigBCdata] that opens both [advance] methods. *)
Definition refresh_bcs (st : TimeStepper) : TimeStepper :=
  set_bigBCdata st
    (map (fun d => {| gdat := gmethod d (gcur d (t st) (dt st)) (u0 st);
                      gcur := gcur d; gmethod := gmethod d |})
         (bigBCdata st)).

Definition stage_problem (st : TimeStepper) : StageProblem :=
  {| p_t := t st; p_dt := dt st; p_u0 := u0 st;
     p_bcs := map gdat (bigBCdata st); p_guess := ks st |}.

(** [self.solver.solve()] *)
Definition solver_solve (st : TimeStepper) : result unit * TimeStepper :=
  let (r, k) := solve (solver st) (stage_problem st) in
  (r, set_ks st k).

(** [TimeStepper.advance] *)
Definition advance (st : TimeStepper) : result unit * TimeStepper :=
  let st1 := refresh_bcs st in
  match solver_solve st1 with
  | (Raise e, st2) => (Raise e, st2)
  | (Ok _, st2) => _update st2
  end.

End RungeKutta.

End RK.

(** ** The adaptive stepper *)

Module Adaptive.
Import RK.

(** A Python number as the scale-factor computation can produce it: a
    power of two floats is a complex number when the base is negative and
    the exponent is not an integer. *)
Inductive pynum : Type :=
| PyFloat (x : R)
| PyComplex.

(** [x / y] on floats. *)
Definition truediv (x y : R) : result R :=
  if Req_dec_T y 0 then Raise ZeroDivisionError else Ok (x / y).

Definition is_integer (y : R) : bool :=
  if Req_dec_T y (IZR (Int_part y)) then true else false.

(** [x ** y] on floats. *)
Definition pow (x y : R) : result pynum :=
  if Rlt_dec 0 x then Ok (PyFloat (Rpower x y))
  else if Req_dec_T y 0 then Ok (PyFloat 1)
  else if Req_dec_T x 0 then
    (if Rlt_dec y 0 then Raise ZeroDivisionError else Ok (PyFloat 0))
  else if is_integer y then Ok (PyFloat (powerRZ x (Int_part y)))
  else Ok PyComplex.

(** [0.84 * (tol / err)**(1./(order-1))]; the base is evaluated before the
    exponent. *)
Definition scale_factor (tol err : R) (order : Z) : result pynum :=
  ratio <- truediv tol err ;;
  expo <- truediv 1 (IZR (order - 1)) ;;
  p <- pow ratio expo ;;
  match p with
  | PyFloat x => Ok (PyFloat (0.84 * x))
  | PyComplex => Ok PyComplex
  end.

(** [if q <= 0.1: q = 0.1 elif q >= 4.0: q = 4.0]; ordering a complex number
    is a [TypeError]. *)
Definition clamp (q : pynum) : result R :=
  match q with
  | PyComplex => Raise TypeError
  | PyFloat x =>
      if Rle_dec x 0.1 then Ok 0.1
      else if Rge_dec x 4.0 then Ok 4.0
      else Ok x
  end.

(** The scale factor as [advance] uses it. *)
Definition clamped_scale_factor (tol err : R) (order : Z) : result R :=
  q0 <- scale_factor tol err order ;;
  clamp q0.

Record AdaptiveTimeStepper : Type := {
  base : TimeStepper;
  tol : R;
  dt_min : R;
  delb : list R;
  error_func : Function
}.

Definition set_base (st : AdaptiveTimeStepper) (bs : TimeStepper)
  : AdaptiveTimeStepper :=
  {| base := bs; tol := tol st; dt_min := dt_min st; delb := delb st;
     error_func := error_func st |}.

Definition set_error_func (st : AdaptiveTimeStepper) (e : Function)
  : AdaptiveTimeStepper :=
  {| base := base st; tol := tol st; dt_min := dt_min st; delb := delb st;
     error_func := e |}.

(** [AdaptiveTimeStepper.__init__]: the base class constructor is called
    without [splitting], hence with [AI]. *)
Definition __init__ (bt : ButcherTableau) (t0 dt0 : R) (u : Function)
  (tol0 dtmin : R) (stages0 : list dat) (bigBCdata0 : list BCdatum)
  (solver0 : NLVS) : result AdaptiveTimeStepper :=
  match btilde bt with
  | None => Raise AssertionError
  | Some btil =>
      let bs := RK.__init__ bt t0 dt0 u AI stages0 bigBCdata0 solver0 in
      d <- np_sub (b bt) btil ;;
      Ok {| base := bs; tol := tol0; dt_min := dtmin; delb := d;
            error_func := map (fun f => vzero (length f)) u |}
  end.

(** The statement of [advance] that raised. *)
Inductive raise_site : Type :=
| InSolve
| InEstimateError
| InScaleFactor
| AtMinimumStep
| InUpdate.

Inductive attempt_result : Type :=
| Rejected (st : AdaptiveTimeStepper)
| Accepted (err dtnew : R) (st : AdaptiveTimeStepper)
| Raised (site : raise_site) (e : exn) (st : AdaptiveTimeStepper).

Inductive outcome : Type :=
| Returns (err dtnew : R)
| Raises (site : raise_site) (e : exn)
| StillRejecting.

Definition minimum_step_message : string :=
  "Minimum time step threshold violated".

Section Stepper.

Variable linalg_solve : matrix -> list R -> result (list R).
Variable norm : Function -> R.

(** [AdaptiveTimeStepper._estimate_error] *)
Definition _estimate_error (st : AdaptiveTimeStepper)
  : result R * AdaptiveTimeStepper :=
  let dtc := dt (base st) in
  let delb0 := delb st in
  let nf := num_fields (base st) in
  let zeroed := map (fun e => vzero (length e)) (error_func st) in
  let (r, e) :=
    accumulate_stages dtc (fun _ i => getitem delb0 i) (ks (base st)) nf
      (seq 0 (num_stages (base st))) zeroed in
  match r with
  | Ok _ => (Ok (norm e), set_error_func st e)
  | Raise ex => (Raise ex, set_error_func st e)
  end.

(** One pass through the body of the [while 1:] loop of [advance]
    (the [print] calls are left out). *)
Definition attempt (st : AdaptiveTimeStepper) : attempt_result :=
  match solver_solve (refresh_bcs (base st)) with
  | (Raise e, bs) => Raised InSolve e (set_base st bs)
  | (Ok _, bs) =>
      match _estimate_error (set_base st bs) with
      | (Raise e, st1) => Raised InEstimateError e st1
      | (Ok err, st1) =>
          match clamped_scale_factor (tol st1) err
                  (order (butcher_tableau (base st1))) with
          | Raise e => Raised InScaleFactor e st1
          | Ok q =>
              let dtnew := q * dt (base st1) in
              if Rge_dec err (tol st1) then
                Rejected (set_base st1 (set_dt (base st1) dtnew))
              else if Rle_dec dtnew (dt_min st1) then
                Raised AtMinimumStep (RuntimeError minimum_step_message) st1
              else
                match _update linalg_solve (base st1) with
                | (Raise e, bs') => Raised InUpdate e (set_base st1 bs')
                | (Ok _, bs') =>
                    Accepted err dtnew (set_base st1 (set_dt bs' dtnew))
                end
          end
      end
  end.

(** [AdaptiveTimeStepper.advance]: the loop has no bound in the source;
    [fuel] bounds the number of attempts made. *)
Fixpoint advance (fuel : nat) (st : AdaptiveTimeStepper)
  : outcome * AdaptiveTimeStepper :=
  match fuel with
  | O => (StillRejecting, st)
  | S fuel' =>
      match attempt st with
      | Rejected st' => advance fuel' st'
      | Accepted err dtnew st' => (Returns err dtnew, st')
      | Raised site e st' => (Raises site e, st')
      end
  end.

(** The first two statements of a pass: the solve, then the estimate. *)
Definition after_solve (st : AdaptiveTimeStepper) : result unit * TimeStepper :=
  solver_solve (refresh_bcs (base st)).

Definition after_estimate (st : AdaptiveTimeStepper)
  : result R * AdaptiveTimeStepper :=
  _estimate_error (set_base st (snd (after_solve st))).

(** The steppers at the start of each pass of the loop that [advance fuel]
    makes. *)
Fixpoint attempts (fuel : nat) (st : AdaptiveTimeStepper)
  : list AdaptiveTimeStepper :=
  match fuel with
  | O => []
  | S fuel' =>
      st :: match attempt st with
            | Rejected st' => attempts fuel' st'
            | _ => []
            end
  end.

(** A pass that ends without raising scales [dt] by the clamped factor. *)
Definition scaled_attempt (s : AdaptiveTimeStepper) : Prop :=
  exists err q,
    clamped_scale_factor (tol s) err (order (butcher_tableau (base s))) = Ok q /\
    0.1 <= q <= 4.0 /\
    (0 < tol s / err ->
     q = Rmax 0.1 (Rmin 4.0
           (0.84 * Rpower (tol s / err)
                     (1 / IZR (order (butcher_tableau (base s)) - 1))))) /\
    match attempt s with
    | Rejected s' => tol s <= err /\ dt (base s') = q * dt (base s)
    | Accepted e d s' =>
        e = err /\ err < tol s /\ d = q * dt (base s) /\ dt (base s') = d
    | Raised _ _ _ => False
    end.

End Stepper.

(** The spec's reading of the error estimate: "the norm of the difference
    between the full-order and embedded-order increments", the stage [s]
    weighted by [delb[s]]. *)
Definition error_increment_spec (st : AdaptiveTimeStepper) : Function :=
  mapi (fun i e =>
          vscale (dt (base st))
            (stage_sum (fun s _ => nth s (delb st) 0) (ks (base st))
               (num_fields (base st)) i (length e)
               (seq 0 (num_stages (base st)))))
       (error_func st).

End Adaptive.

(** ** Discontinuous Galerkin in time *)

Module DG.

(** *** FIAT: reference cells, quadrature rules, elements *)

Record ReferenceElement : Type := {
  spatial_dimension : nat;
  cell_shape : nat
}.

Definition ref_el_eqb (a b : ReferenceElement) : bool :=
  Nat.eqb (spatial_dimension a) (spatial_dimension b)
  && Nat.eqb (cell_shape a) (cell_shape b).

(** [ufc_simplex(1)] *)
Definition ufc_line : ReferenceElement :=
  {| spatial_dimension := 1; cell_shape := 1 |}.

Record QuadratureRule : Type := {
  ref_el : ReferenceElement;
  get_points : list (list R);
  get_weights : list R
}.

(** [np.size(a)] of a two-dimensional array given by its rows. *)
Definition np_size (a : list (list R)) : nat := length (concat a).

(** What a concrete FIAT element knows: [entity_dofs()[dim][entity]] and the
    tabulation of the basis functions and of their first derivatives at
    given points, one row per basis function. *)
Record ElementData : Type := {
  reference_element : ReferenceElement;
  dimension : nat;
  dofs_on_entities : list (list (list nat));
  tabulation : list (list R) -> matrix * matrix
}.

Inductive FiatElement : Type :=
| CiarletElement (d : ElementData)
| DiscontinuousElement (_element : FiatElement).

Fixpoint element_data (e : FiatElement) : ElementData :=
  match e with
  | CiarletElement d => d
  | DiscontinuousElement e' => element_data e'
  end.

Definition get_reference_element (e : FiatElement) : ReferenceElement :=
  reference_element (element_data e).
Definition space_dimension (e : FiatElement) : nat := dimension (element_data e).
Definition tabulate (e : FiatElement) (pts : list (list R)) : matrix * matrix :=
  tabulation (element_data e) pts.

(** [entity_dofs()]: the wrapper [DiscontinuousElement] moves every degree of
    freedom of the element it wraps to the interior of the cell (here for
    a cell with two vertices). *)
Definition entity_dofs (e : FiatElement) : list (list (list nat)) :=
  match e with
  | CiarletElement d => dofs_on_entities d
  | DiscontinuousElement e' => [[[]; []]; [seq 0 (space_dimension e')]]
  end.

(** [if isinstance(element, DiscontinuousElement): element = element._element] *)
Definition unwrap (L : FiatElement) : FiatElement :=
  match L with
  | DiscontinuousElement e => e
  | _ => L
  end.

(** The degrees of freedom that element [e] attaches to entity number [k]
    of dimension [dim] of the interval: vertex 0 is the left end, vertex 1
    the right end, and the only entity of dimension 1 is the interior. *)
Definition dofs_of_entity (e : FiatElement) (dim k : nat) : list nat :=
  nth k (nth dim (entity_dofs e) []) [].

(** The ordering of the stages in words: the degrees of freedom of the left
    vertex first, then those of the interior, then those of the right
    vertex. *)
Definition left_interior_right (e : FiatElement) : list nat :=
  dofs_of_entity e 0 0 ++ dofs_of_entity e 1 0 ++ dofs_of_entity e 0 1.

(** The constructors and rules of FIAT that the stepper calls. *)
Record FIAT : Type := {
  DiscontinuousLagrange : ReferenceElement -> Z -> FiatElement;
  Bernstein : ReferenceElement -> Z -> FiatElement;
  IntegratedLegendre : ReferenceElement -> Z -> FiatElement;
  Lagrange : ReferenceElement -> Z -> option string -> FiatElement;
  make_quadrature : ReferenceElement -> Z -> QuadratureRule
}.

(** *** UFL: symbolic expressions and forms *)

Inductive ufl_expr : Type :=
| E_t
| E_dt
| E_u0
| E_v
| E_real (x : R)
| E_u_np (i : nat)
| E_v_np (i : nat)
| E_add (a b : ufl_expr)
| E_sub (a b : ufl_expr)
| E_mul (a b : ufl_expr)
| E_div (a b : ufl_expr)
| E_matvec (num_rows : nat) (col : list R).

(** [component_replace(f, repl)] of [irksome/tools.py] (absent) is kept as a
    node of the form: the replacement dictionary lists its items in
    insertion order. *)
Inductive ufl_form : Type :=
| F_zero
| F_atom (name : string)
| F_add (a b : ufl_form)
| F_scale (c : ufl_expr) (f : ufl_form)
| F_replace (f : ufl_form) (repl : list (ufl_expr * ufl_expr)).

(** [Fnew += term]; [zero() + term] is [term]. *)
Definition form_add (acc term : ufl_form) : ufl_form :=
  match acc with
  | F_zero => term
  | _ => F_add acc term
  end.

Fixpoint summands (f : ufl_form) : list ufl_form :=
  match f with
  | F_zero => []
  | F_add a c => summands a ++ [c]
  | _ => [f]
  end.

(** The semi-discrete form with the function space of its test function. *)
Record SemiDiscreteForm : Type := {
  form : ufl_form;
  test_space : list nat
}.

Definition function_space (u : Function) : list nat := map (@length R) u.

(** [a[perm]] with a list of row indices. *)
Fixpoint take_rows (a : matrix) (perm : list nat) : result matrix :=
  match perm with
  | [] => Ok []
  | p :: rest =>
      row <- getitem a p ;;
      rows <- take_rows a rest ;;
      Ok (row :: rows)
  end.

(** [a[:, q]] *)
Fixpoint column (a : matrix) (q : nat) : result (list R) :=
  match a with
  | [] => Ok []
  | row :: rest =>
      x <- getitem row q ;;
      xs <- column rest q ;;
      Ok (x :: xs)
  end.

(** One row of [np.multiply(a, w)]: the row times [w] entry by entry, a row
    or a [w] of length 1 being stretched to the length of the other. *)
Definition multiply_row (row w : list R) : result (list R) :=
  if Nat.eqb (length row) (length w) then Ok (zipWith Rmult row w)
  else match row, w with
       | [x], _ => Ok (map (fun y => x * y) w)
       | _, [y] => Ok (map (fun x => x * y) row)
       | _, _ => Raise ValueError
       end.

(** [np.multiply(a, w)] for a two-dimensional [a] and a one-dimensional
    [w].  An array is the list of its rows, so an array without rows has no
    width here and is multiplied to the array without rows. *)
Fixpoint np_multiply (a : matrix) (w : list R) : result matrix :=
  match a with
  | [] => Ok []
  | row :: rest =>
      r <- multiply_row row w ;;
      rows <- np_multiply rest w ;;
      Ok (r :: rows)
  end.

(** [a @ b.T]: the rows of [a] and of [b] must have one length. *)
Definition matmul_transpose (a bm : matrix) : result matrix :=
  if forallb (fun row =>
                forallb (fun row' => Nat.eqb (length row) (length row')) bm) a
  then Ok (map (fun row => map (fun row' => dot row row') bm) a)
  else Raise ValueError.

(** [u_np @ col], where [u_np] has one row [E_u_np i] per stage. *)
Definition matvec (num_stages : nat) (col : list R) : result ufl_expr :=
  if Nat.eqb num_stages (length col) then Ok (E_matvec num_stages col)
  else Raise ValueError.

(** The substitution that turns the time-derivative part into the jump term. *)
Definition jump_repl : list (ufl_expr * ufl_expr) :=
  [(E_u0, E_sub (E_u_np 0) E_u0); (E_v, E_v_np 0)].

Definition jump_term (dtless : ufl_form) : ufl_form := F_replace dtless jump_repl.

(** The terms that the loops over stages and quadrature points add. *)
Definition quadrature_term (f : ufl_form) : Prop :=
  match f with
  | F_scale _ (F_replace (F_replace _ _) _) => True
  | _ => False
  end.

Section Form.

(** [extract_terms] and [strip_dt_form] of [irksome/manipulation.py] are
    absent: [extract_terms F] gives the pair (time, remainder). *)
Variable extract_terms : ufl_form -> ufl_form * ufl_form.
Variable strip_dt_form : ufl_form -> ufl_form.
Variable linalg_solve_matrix : matrix -> matrix -> result matrix.

(** The loop over quadrature points inside a loop over stages; [u_of] builds
    the replacement for [u0] from the tabulation used by that loop. *)
Fixpoint quadrature_loop (F_i : ufl_form) (i : nat) (qpts qwts : list R)
  (basis_vals tab : matrix) (u_scale : ufl_expr -> ufl_expr) (ns : nat)
  (qs : list nat) (Fnew : ufl_form) : result ufl_form :=
  match qs with
  | [] => Ok Fnew
  | q :: later =>
      qp <- getitem qpts q ;;
      col <- column tab q ;;
      uq <- matvec ns col ;;
      qw <- getitem qwts q ;;
      row <- getitem basis_vals i ;;
      bv <- getitem row q ;;
      let repl := [(E_t, E_add E_t (E_mul E_dt (E_real qp))); (E_u0, u_scale uq)] in
      quadrature_loop F_i i qpts qwts basis_vals tab u_scale ns later
        (form_add Fnew
           (F_scale (E_mul (E_mul E_dt (E_real qw)) (E_real bv))
                    (F_replace F_i repl)))
  end.

Fixpoint stage_loop (part : ufl_form) (qpts qwts : list R)
  (basis_vals tab : matrix) (u_scale : ufl_expr -> ufl_expr) (ns : nat)
  (stages : list nat) (Fnew : ufl_form) : result ufl_form :=
  match stages with
  | [] => Ok Fnew
  | i :: later =>
      let F_i := F_replace part [(E_v, E_v_np i)] in
      Fnew' <- quadrature_loop F_i i qpts qwts basis_vals tab u_scale ns
                 (seq 0 (length qpts)) Fnew ;;
      stage_loop part qpts qwts basis_vals tab u_scale ns later Fnew'
  end.

(** [perm = [*edofs[0][0], *edofs[1][0], *edofs[0][1]]] *)
Definition geometric_perm (L : FiatElement) : result (list nat) :=
  let element := unwrap L in
  let edofs := entity_dofs element in
  d0 <- getkey edofs 0%nat ;;
  left <- getkey d0 0%nat ;;
  d1 <- getkey edofs 1%nat ;;
  interior <- getkey d1 0%nat ;;
  d0' <- getkey edofs 0%nat ;;
  right <- getkey d0' 1%nat ;;
  Ok (left ++ interior ++ right).

(** [getFormDiscGalerkin]: the form [Fnew] and the stage unknown [UU].  The
    boundary conditions and the null space, which absent helpers build, are
    not part of the embedding. *)
Definition getFormDiscGalerkin (F : SemiDiscreteForm) (L : FiatElement)
  (Q : QuadratureRule) (u0 : Function) : result (ufl_form * list dat) :=
  if negb (Nat.eqb (spatial_dimension (ref_el Q)) 1) then Raise AssertionError
  else if negb (ref_el_eqb (get_reference_element L) (ref_el Q)) then Raise AssertionError
  else if negb (list_eq_dec_b (test_space F) (function_space u0)) then Raise AssertionError
  else
    let num_stages := space_dimension L in
    (* [reduce(mul, ...)] over an empty sequence *)
    if Nat.eqb num_stages 0 then Raise TypeError
    else
    let UU := concat (repeat (map (fun d => vzero (length d)) u0) num_stages) in
    let qpts := get_points Q in
    let qwts := get_weights Q in
    let '(basis_vals0, basis_dvals0) := tabulate L qpts in
    perm <- geometric_perm L ;;
    basis_vals <- take_rows basis_vals0 perm ;;
    basis_dvals <- take_rows basis_dvals0 perm ;;
    weighted <- np_multiply basis_vals qwts ;;
    mmat <- matmul_transpose weighted basis_vals ;;
    weighted' <- np_multiply basis_vals qwts ;;
    proj <- linalg_solve_matrix mmat weighted' ;;
    let '(time, remainder) := extract_terms (form F) in
    let dtless := strip_dt_form time in
    let qpts1 := concat qpts in
    Fnew1 <- stage_loop dtless qpts1 qwts basis_vals basis_dvals
               (fun uq => E_mul (E_div (E_real 1) E_dt) uq) num_stages
               (seq 0 num_stages) F_zero ;;
    let Fnew2 := form_add Fnew1 (jump_term dtless) in
    Fnew3 <- stage_loop remainder qpts1 qwts basis_vals basis_vals
               (fun uq => uq) num_stages (seq 0 num_stages) Fnew2 ;;
    Ok (Fnew3, UU).

End Form.

(** The rows of [a] listed by [perm]: row [i] is row [perm[i]] of [a]. *)
Definition permuted_rows (a : matrix) (perm : list nat) : matrix :=
  map (fun p => nth p a []) perm.

(** The summand that the inner loop adds for stage [i] and quadrature point
    [q], written with the entries of the arrays it reads. *)
Definition stage_point_term (part : ufl_form) (qpts qwts : list R)
  (basis_vals tab : matrix) (u_scale : ufl_expr -> ufl_expr) (ns i q : nat)
  : ufl_form :=
  F_scale
    (E_mul (E_mul E_dt (E_real (nth q qwts 0)))
           (E_real (nth q (nth i basis_vals []) 0)))
    (F_replace (F_replace part [(E_v, E_v_np i)])
       [(E_t, E_add E_t (E_mul E_dt (E_real (nth q qpts 0))));
        (E_u0, u_scale (E_matvec ns (map (fun row => nth q row 0) tab)))]).

(** All of them, stage by stage and point by point. *)
Definition stage_terms (part : ufl_form) (qpts qwts : list R)
  (basis_vals tab : matrix) (u_scale : ufl_expr -> ufl_expr) (ns : nat)
  : list ufl_form :=
  flat_map
    (fun i => map (stage_point_term part qpts qwts basis_vals tab u_scale ns i)
                  (seq 0 (length qpts)))
    (seq 0 ns).

(** *** The stepper *)

Record StageProblem : Type := {
  p_form : ufl_form;
  p_t : R;
  p_dt : R;
  p_u0 : Function;
  p_guess : list dat
}.

(** What one call of [self.solver.solve()] does: it overwrites the stage
    unknown, returns or raises, and leaves its iteration counts in
    [self.solver.snes]. *)
Record SolveReport : Type := {
  status : result unit;
  stage_values : list dat;
  getIterationNumber : Z;
  getLinearSolveIterations : Z
}.

Record NLVS : Type := {
  solve : StageProblem -> SolveReport
}.

Record Stepper : Type := {
  u0 : Function;
  t : R;
  dt : R;
  order : Z;
  basis_type : option string;
  num_fields : nat;
  el : FiatElement;
  quadrature : QuadratureRule;
  num_steps : Z;
  num_nonlinear_iterations : Z;
  num_linear_iterations : Z;
  UU : list dat;
  bigF : ufl_form;
  solver : NLVS
}.

(** [t[i]] on a tuple with a Python integer index. *)
Definition getitemZ {A : Type} (l : list A) (i : Z) : result A :=
  if (0 <=? i)%Z then getitem l (Z.to_nat i)
  else if (0 <=? Z.of_nat (length l) + i)%Z
       then getitem l (Z.to_nat (Z.of_nat (length l) + i))
       else Raise IndexError.

(** [for i, u0bit in enumerate(u0bits): u0bit.assign(UUs[nf*order+i])] *)
Fixpoint assign_fields (UUs : list dat) (nf : nat) (k : Z) (i : nat)
  (u0bits : list dat) : result unit * list dat :=
  match u0bits with
  | [] => (Ok tt, [])
  | u0bit :: rest =>
      match getitemZ UUs (Z.of_nat nf * k + Z.of_nat i)%Z with
      | Raise e => (Raise e, u0bits)
      | Ok d =>
          let (r, rest') := assign_fields UUs nf k (S i) rest in
          (r, d :: rest')
      end
  end.

Definition string_opt_eqb (a : option string) (s : string) : bool :=
  match a with
  | Some x => String.eqb x s
  | None => false
  end.

Section Stepper.

Variable fiat : FIAT.
Variable extract_terms : ufl_form -> ufl_form * ufl_form.
Variable strip_dt_form : ufl_form -> ufl_form.
Variable linalg_solve_matrix : matrix -> matrix -> result matrix.

(** The element [__init__] picks for [order] and [basis_type]. *)
Definition time_element (order0 : Z) (basis_type0 : option string) : FiatElement :=
  if (order0 =? 0)%Z then DiscontinuousLagrange fiat ufc_line 0
  else if string_opt_eqb basis_type0 "Bernstein" then
    DiscontinuousElement (Bernstein fiat ufc_line order0)
  else if string_opt_eqb basis_type0 "integral" then
    DiscontinuousElement (IntegratedLegendre fiat ufc_line order0)
  else
    let variant := if string_opt_eqb basis_type0 "Lagrange" then None
                   else basis_type0 in
    DiscontinuousElement (Lagrange fiat ufc_line order0 variant).

(** The rule [__init__] uses: the caller's, or Gauss with [order+1] points. *)
Definition chosen_quadrature (order0 : Z) (quadrature0 : option QuadratureRule)
  : QuadratureRule :=
  match quadrature0 with
  | None => make_quadrature fiat ufc_line (order0 + 1)
  | Some Q => Q
  end.

(** [np.size(quadrature.get_points()) >= order+1] *)
Definition quadrature_check (order0 : Z) (Q : QuadratureRule) : bool :=
  (order0 + 1 <=? Z.of_nat (np_size (get_points Q)))%Z.

(** [DiscontinuousGalerkinTimeStepper.__init__]; [solver0] is the
    [NonlinearVariationalSolver] built for the assembled problem. *)
Definition __init__ (F : SemiDiscreteForm) (order0 : Z) (t0 dt0 : R)
  (u : Function) (basis_type0 : option string)
  (quadrature0 : option QuadratureRule) (solver0 : NLVS) : result Stepper :=
  if negb (0 <=? order0)%Z then Raise AssertionError
  else
    let el0 := time_element order0 basis_type0 in
    let Q := chosen_quadrature order0 quadrature0 in
    if negb (quadrature_check order0 Q) then Raise AssertionError
    else
      built <- getFormDiscGalerkin extract_terms strip_dt_form
                 linalg_solve_matrix F el0 Q u ;;
      let '(bigF0, UU0) := built in
      Ok {| u0 := u; t := t0; dt := dt0; order := order0;
            basis_type := basis_type0; num_fields := length u;
            el := el0; quadrature := Q;
            num_steps := 0; num_nonlinear_iterations := 0;
            num_linear_iterations := 0;
            UU := UU0; bigF := bigF0; solver := solver0 |}.

End Stepper.

Definition stage_problem (st : Stepper) : StageProblem :=
  {| p_form := bigF st; p_t := t st; p_dt := dt st; p_u0 := u0 st;
     p_guess := UU st |}.

(** [DiscontinuousGalerkinTimeStepper.advance] *)
Definition advance (st : Stepper) : result unit * Stepper :=
  let rep := solve (solver st) (stage_problem st) in
  let solved (steps nl lin : Z) (u : Function) : Stepper :=
    {| u0 := u; t := t st; dt := dt st; order := order st;
       basis_type := basis_type st; num_fields := num_fields st;
       el := el st; quadrature := quadrature st;
       num_steps := steps; num_nonlinear_iterations := nl;
       num_linear_iterations := lin;
       UU := stage_values rep; bigF := bigF st; solver := solver st |} in
  match status rep with
  | Raise e =>
      (Raise e, solved (num_steps st) (num_nonlinear_iterations st)
                  (num_linear_iterations st) (u0 st))
  | Ok _ =>
      let (r, u) :=
        assign_fields (stage_values rep) (num_fields st) (order st) 0 (u0 st) in
      (r, solved (num_steps st + 1)%Z
            (num_nonlinear_iterations st + getIterationNumber rep)%Z
            (num_linear_iterations st + getLinearSolveIterations rep)%Z u)
  end.

(** [DiscontinuousGalerkinTimeStepper.solver_stats] *)
Definition solver_stats (st : Stepper) : Z * Z * Z :=
  (num_steps st, num_nonlinear_iterations st, num_linear_iterations st).

(** The spec's measure of a rule, "at least as accurate as" a degree: the
    rule integrates [x^j] over the unit interval exactly for every
    [j <= d]. *)
Definition exact_to_degree (Q : QuadratureRule) (d : nat) : Prop :=
  forall j, (j <= d)%nat ->
    fold_right Rplus 0
      (zipWith (fun w p => w * hd 0 p ^ j) (get_weights Q) (get_points Q))
    = 1 / INR (j + 1).

(** [n] calls of [advance] in a row, stopping at the first that raises. *)
Fixpoint advance_n (n : nat) (st : Stepper) : result unit * Stepper :=
  match n with
  | O => (Ok tt, st)
  | S n' =>
      match advance st with
      | (Ok _, st') => advance_n n' st'
      | (Raise e, st') => (Raise e, st')
      end
  end.

End DG.

(** ** The three stepper classes and attribute lookup *)

Module API.

Inductive stepper_class : Type :=
| TimeStepper
| AdaptiveTimeStepper
| DiscontinuousGalerkinTimeStepper.

(** The names each class body defines. *)
Definition class_dict (cls : stepper_class) : list string :=
  match cls with
  | TimeStepper => ["__init__"; "_update"; "advance"]
  | AdaptiveTimeStepper => ["__init__"; "_estimate_error"; "advance"]
  | DiscontinuousGalerkinTimeStepper => ["__init__"; "advance"; "solver_stats"]
  end%string.

(** The method resolution order. *)
Definition mro (cls : stepper_class) : list stepper_class :=
  match cls with
  | TimeStepper => [TimeStepper]
  | AdaptiveTimeStepper => [AdaptiveTimeStepper; TimeStepper]
  | DiscontinuousGalerkinTimeStepper => [DiscontinuousGalerkinTimeStepper]
  end.

Definition has_method (cls : stepper_class) (name : string) : bool :=
  existsb (fun k => existsb (String.eqb name) (class_dict k)) (mro cls).

Inductive stepper : Type :=
| OfTimeStepper (st : RK.TimeStepper)
| OfAdaptiveTimeStepper (st : Adaptive.AdaptiveTimeStepper)
| OfDiscontinuousGalerkinTimeStepper (st : DG.Stepper).

Definition class_of (s : stepper) : stepper_class :=
  match s with
  | OfTimeStepper _ => TimeStepper
  | OfAdaptiveTimeStepper _ => AdaptiveTimeStepper
  | OfDiscontinuousGalerkinTimeStepper _ => DiscontinuousGalerkinTimeStepper
  end.

(** [stepper.solver_stats()] *)
Definition call_solver_stats (s : stepper) : result (Z * Z * Z) :=
  if has_method (class_of s) "solver_stats" then
    match s with
    | OfDiscontinuousGalerkinTimeStepper st => Ok (DG.solver_stats st)
    | _ => Raise (AttributeError "solver_stats")
    end
  else Raise (AttributeError "solver_stats").

End API.

(** ** The Cahn-Hilliard example script *)

Module CahnHilliard.

(** [dfdc(cc)], the derivative of the double-well potential. *)
Definition dfdc (cc : R) : R :=
  200 * (cc * (1 - cc) ^ 2 - cc ^ 2 * (1 - cc)).

(** The data of [c0] after
    [c0.dat.data[::6] = 0.63 + 0.2*(0.5 - np.random.random(shape))] on the
    zero function with [n] degrees of freedom; [random k] is entry [k] of
    the array that [np.random.random] returns. *)
Definition initial_data (n : nat) (random : nat -> R) : dat :=
  map (fun j => if (j mod 6 =? 0)%nat
                then 0.63 + 0.2 * (0.5 - random (j / 6)%nat)
                else 0)
      (seq 0 n).

End CahnHilliard.

(** ** Example steppers *)

Module Examples.
Import RK.

(** A solver for diagonal systems, standing for [numpy.linalg.solve]. *)
Definition diag_solve (M : matrix) (rhs : list R) : result (list R) :=
  Ok (mapi (fun i r => r / nth i (nth i M []) 0) rhs).

(** Backward Euler, [A=[[1]], b=[1], c=[1]], on [du/dt = -u] with [u0 = 1]
    and [dt = 0.1]: the stage equation [k = -(u0 + dt*k)] is solved exactly. *)
Definition implicit_euler : ButcherTableau :=
  {| A := [[1]]; b := [1]; btilde := None; c := [1]; order := 1 |}.

Definition decay_solver : NLVS :=
  {| solve := fun p => (Ok tt, map (vscale (- / (1 + p_dt p))) (p_u0 p)) |}.

Definition euler_stepper : TimeStepper :=
  RK.__init__ implicit_euler 0 0.1 [[1]] AI [[0]] [] decay_solver.

Definition euler_solved : TimeStepper :=
  snd (solver_solve (refresh_bcs euler_stepper)).

(** A two-stage method of order 2 with an embedded estimator, for one
    field with a single degree of freedom. *)
Definition embedded_pair : ButcherTableau :=
  {| A := [[1 / 2; 0]; [1 / 2; 1 / 2]]; b := [1 / 2; 1 / 2];
     btilde := Some [1; 0]; c := [1 / 2; 1]; order := 2 |}.

(** A solver whose two stage values are both [k]. *)
Definition constant_solver (k : R) : NLVS :=
  {| solve := fun _ => (Ok tt, [[k]; [k]]) |}.

Definition pair_base (k : R) : TimeStepper :=
  RK.__init__ embedded_pair 0 1 [[1]] AI [[k]; [k]] [] (constant_solver k).

Definition pair_stepper (k tol0 dtmin : R) : Adaptive.AdaptiveTimeStepper :=
  {| Adaptive.base := pair_base k; Adaptive.tol := tol0;
     Adaptive.dt_min := dtmin; Adaptive.delb := [1 / 2 - 1; 1 / 2 - 0];
     Adaptive.error_func := [[0]] |}.



(** Piecewise constants on the interval: one degree of freedom, in the
    interior of the cell. *)
Definition P0 : DG.ElementData :=
  {| DG.reference_element := DG.ufc_line;
     DG.dimension := 1;
     DG.dofs_on_entities := [[[]; []]; [[0%nat]]];
     DG.tabulation := fun pts =>
       ([map (fun _ => 1) pts], [map (fun _ => 0) pts]) |}.

(** Linear polynomials on the interval with the nodal basis [1-x], [x]. *)
Definition P1 : DG.ElementData :=
  {| DG.reference_element := DG.ufc_line;
     DG.dimension := 2;
     DG.dofs_on_entities := [[[0%nat]; [1%nat]]; [[]]];
     DG.tabulation := fun pts =>
       ([map (fun p => 1 - hd 0 p) pts; map (hd 0) pts],
        [map (fun _ => -1) pts; map (fun _ => 1) pts]) |}.

(** Quadratic polynomials with the nodal basis of the points 0, 1 and 1/2:
    the two vertex dofs come first, the midpoint is dof 2. *)
Definition P2 : DG.ElementData :=
  {| DG.reference_element := DG.ufc_line;
     DG.dimension := 3;
     DG.dofs_on_entities := [[[0%nat]; [1%nat]]; [[2%nat]]];
     DG.tabulation := fun pts =>
       ([map (fun p => (1 - hd 0 p) * (1 - 2 * hd 0 p)) pts;
         map (fun p => hd 0 p * (2 * hd 0 p - 1)) pts;
         map (fun p => 4 * hd 0 p * (1 - hd 0 p)) pts],
        [map (fun p => 4 * hd 0 p - 3) pts;
         map (fun p => 4 * hd 0 p - 1) pts;
         map (fun p => 4 - 8 * hd 0 p) pts]) |}.

(** Cubic polynomials with the nodal basis of the points 0, 1, 1/3 and 2/3:
    dofs 2 and 3 are in the interior. *)
Definition P3 : DG.ElementData :=
  {| DG.reference_element := DG.ufc_line;
     DG.dimension := 4;
     DG.dofs_on_entities := [[[0%nat]; [1%nat]]; [[2%nat; 3%nat]]];
     DG.tabulation := fun pts =>
       ([map (fun p => - (9 / 2) * (hd 0 p - 1 / 3) * (hd 0 p - 2 / 3) * (hd 0 p - 1)) pts;
         map (fun p => 9 / 2 * hd 0 p * (hd 0 p - 1 / 3) * (hd 0 p - 2 / 3)) pts;
         map (fun p => 27 / 2 * hd 0 p * (hd 0 p - 2 / 3) * (hd 0 p - 1)) pts;
         map (fun p => - (27 / 2) * hd 0 p * (hd 0 p - 1 / 3) * (hd 0 p - 1)) pts],
        [map (fun p => - (9 / 2) * (3 * hd 0 p ^ 2 - 4 * hd 0 p + 11 / 9)) pts;
         map (fun p => 9 / 2 * (3 * hd 0 p ^ 2 - 2 * hd 0 p + 2 / 9)) pts;
         map (fun p => 27 / 2 * (3 * hd 0 p ^ 2 - 10 / 3 * hd 0 p + 2 / 3)) pts;
         map (fun p => - (27 / 2) * (3 * hd 0 p ^ 2 - 8 / 3 * hd 0 p + 1 / 3)) pts]) |}.

(** [m] midpoints with equal weights; for [m = 1] this is the Gauss rule. *)
Definition midpoint_rule (m : nat) : DG.QuadratureRule :=
  {| DG.ref_el := DG.ufc_line;
     DG.get_points :=
       map (fun i => [(2 * INR i + 1) / (2 * INR m)]) (seq 0 m);
     DG.get_weights := map (fun _ => 1 / INR m) (seq 0 m) |}.

(** The left-endpoint rule: one point, exact for constants only. *)
Definition left_endpoint_rule : DG.QuadratureRule :=
  {| DG.ref_el := DG.ufc_line; DG.get_points := [[0]]; DG.get_weights := [1] |}.

Definition small_fiat : DG.FIAT :=
  {| DG.DiscontinuousLagrange := fun _ _ => DG.CiarletElement P0;
     DG.Bernstein := fun _ _ => DG.CiarletElement P1;
     DG.IntegratedLegendre := fun _ _ => DG.CiarletElement P1;
     DG.Lagrange := fun _ k _ =>
       DG.CiarletElement (if (k =? 2)%Z then P2 else P1);
     DG.make_quadrature := fun _ m => midpoint_rule (Z.to_nat m) |}.

(** [F = inner(Dt(u), v)*dx + inner(u, v)*dx], split at the sum. *)
Definition decay_form : DG.SemiDiscreteForm :=
  {| DG.form := DG.F_add (DG.F_atom "inner(Dt(u), v)*dx")
                         (DG.F_atom "inner(u, v)*dx");
     DG.test_space := [1%nat] |}.

Definition split_sum (f : DG.ufl_form) : DG.ufl_form * DG.ufl_form :=
  match f with
  | DG.F_add a r => (a, r)
  | _ => (DG.F_zero, f)
  end.

Definition keep_form (f : DG.ufl_form) : DG.ufl_form := f.

Definition diag_solve_matrix (M rhs : matrix) : result matrix :=
  Ok (mapi (fun i row => map (fun r => r / nth i (nth i M []) 0) row) rhs).

(** The DG(0) step for [du/dt = -u]: [u1 = u0 / (1 + dt)], in one Newton
    iteration. *)
Definition dg_decay_solver : DG.NLVS :=
  {| DG.solve := fun p =>
       {| DG.status := Ok tt;
          DG.stage_values := map (map (fun u => u / (1 + DG.p_dt p))) (DG.p_u0 p);
          DG.getIterationNumber := 1;
          DG.getLinearSolveIterations := 1 |} |}.

(** A DG(0) stepper for [du/dt = -u], [u0 = 1], [dt = 0.1], as [__init__]
    builds it, and a DG(1) stepper with two fields. *)
Definition dg0_stepper : DG.Stepper :=
  {| DG.u0 := [[1]]; DG.t := 0; DG.dt := 0.1; DG.order := 0;
     DG.basis_type := None; DG.num_fields := 1;
     DG.el := DG.CiarletElement P0; DG.quadrature := midpoint_rule 1;
     DG.num_steps := 0; DG.num_nonlinear_iterations := 0;
     DG.num_linear_iterations := 0;
     DG.UU := [[0]]; DG.bigF := DG.F_zero; DG.solver := dg_decay_solver |}.

Definition two_field_solver : DG.NLVS :=
  {| DG.solve := fun _ =>
       {| DG.status := Ok tt;
          DG.stage_values := [[1]; [2]; [3]; [4]];
          DG.getIterationNumber := 2;
          DG.getLinearSolveIterations := 5 |} |}.

Definition dg1_stepper : DG.Stepper :=
  {| DG.u0 := [[0]; [0]]; DG.t := 0; DG.dt := 0.1; DG.order := 1;
     DG.basis_type := None; DG.num_fields := 2;
     DG.el := DG.DiscontinuousElement (DG.CiarletElement P1);
     DG.quadrature := midpoint_rule 2;
     DG.num_steps := 0; DG.num_nonlinear_iterations := 0;
     DG.num_linear_iterations := 0;
     DG.UU := [[0]; [0]; [0]; [0]]; DG.bigF := DG.F_zero;
     DG.solver := two_field_solver |}.

(** A solver for three stages of one field, with a value of its own for
    each stage. *)
Definition three_stage_solver : DG.NLVS :=
  {| DG.solve := fun _ =>
       {| DG.status := Ok tt;
          DG.stage_values := [[10]; [20]; [30]];
          DG.getIterationNumber := 1;
          DG.getLinearSolveIterations := 1 |} |}.

(** The DG(2) stepper that [__init__] builds for [du/dt = -u] with the
    quadratic element and three midpoints, and the same after one step. *)
Definition dg2_stepper : DG.Stepper :=
  match DG.__init__ small_fiat split_sum keep_form diag_solve_matrix
          decay_form 2 0 0.1 [[1]] None None three_stage_solver with
  | Ok st => st
  | Raise _ => dg0_stepper
  end.

Definition dg2_after_one_step : DG.Stepper := snd (DG.advance_n 1 dg2_stepper).

(** The sum of the absolute values, standing for [firedrake.norm]. *)
Definition abs_norm (f : Function) : R :=
  fold_right Rplus 0 (map Rabs (concat f)).

End Examples.

(** * Properties *)

Import RK.

(** ** Arrays *)

Lemma zipWith_length {X Y Z : Type} (f : X -> Y -> Z) (l : list X) (m : list Y) :
  length l = length m -> length (zipWith f l m) = length l.
Proof.
  revert m; induction l as [|a l IH]; intros [|y m] H; simpl in *; try easy.
  now rewrite IH by lia.
Qed.

Lemma vadd_length (u v : dat) : length u = length v -> length (vadd u v) = length u.
Proof. apply zipWith_length. Qed.

Lemma vscale_length (x : R) (v : dat) : length (vscale x v) = length v.
Proof. apply length_map. Qed.

Lemma vadd_assoc (u v w : dat) : vadd (vadd u v) w = vadd u (vadd v w).
Proof.
  unfold vadd.
  revert v w; induction u as [|a u IH]; intros [|y v] [|z w]; simpl; try easy.
  rewrite IH. f_equal. ring.
Qed.

Lemma vadd_vzero (u : dat) : vadd u (vzero (length u)) = u.
Proof.
  unfold vadd, vzero.
  induction u as [|a u IH]; simpl; [easy|].
  rewrite IH. f_equal. ring.
Qed.

Lemma vscale_vadd (x : R) (u v : dat) :
  vscale x (vadd u v) = vadd (vscale x u) (vscale x v).
Proof.
  unfold vadd, vscale.
  revert v; induction u as [|a u IH]; intros [|y v]; simpl; try easy.
  rewrite IH. f_equal. ring.
Qed.

Lemma vscale_vscale (x y : R) (u : dat) : vscale x (vscale y u) = vscale (x * y) u.
Proof.
  unfold vscale. rewrite map_map. apply map_ext. intros; ring.
Qed.

Lemma vscale_vzero (x : R) (n : nat) : vscale x (vzero n) = vzero n.
Proof.
  unfold vscale, vzero.
  induction n as [|n IH]; simpl; [easy|].
  rewrite IH. f_equal. ring.
Qed.

Lemma iadd_same_shape (lhs rhs : dat) :
  length rhs = length lhs -> iadd lhs rhs = Ok (vadd lhs rhs).
Proof. intros H. unfold iadd. now rewrite H, Nat.eqb_refl. Qed.

Lemma mapi_from_length {X Y : Type} (f : nat -> X -> Y) (i : nat) (l : list X) :
  length (mapi_from f i l) = length l.
Proof. revert i; induction l as [|a l IH]; intro i; simpl; [easy|now rewrite IH]. Qed.

Lemma mapi_from_nth_error {X Y : Type} (f : nat -> X -> Y) (l : list X) :
  forall i j, nth_error (mapi_from f i l) j = option_map (f (i + j)%nat) (nth_error l j).
Proof.
  induction l as [|a l IH]; intros i [|j]; simpl; try easy.
  - now rewrite Nat.add_0_r.
  - rewrite IH. now replace (S i + j)%nat with (i + S j)%nat by lia.
Qed.

Lemma mapi_from_ext_in {X Y : Type} (f g : nat -> X -> Y) (l : list X) :
  forall i,
    (forall j a, nth_error l j = Some a -> f (i + j)%nat a = g (i + j)%nat a) ->
    mapi_from f i l = mapi_from g i l.
Proof.
  induction l as [|a l IH]; intros i H; simpl; [easy|].
  f_equal.
  - specialize (H 0%nat a eq_refl). now rewrite Nat.add_0_r in H.
  - apply IH. intros j x Hj. specialize (H (S j) x Hj).
    now replace (S i + j)%nat with (i + S j)%nat by lia.
Qed.

Lemma mapi_from_compose {X Y Z : Type} (f : nat -> X -> Y) (g : nat -> Y -> Z)
  (l : list X) :
  forall i, mapi_from g i (mapi_from f i l) = mapi_from (fun j a => g j (f j a)) i l.
Proof. induction l as [|a l IH]; intro i; simpl; [easy|now rewrite IH]. Qed.

Lemma mapi_from_id {X : Type} (f : nat -> X -> X) (l : list X) :
  forall i,
    (forall j a, nth_error l j = Some a -> f (i + j)%nat a = a) ->
    mapi_from f i l = l.
Proof.
  induction l as [|a l IH]; intros i H; simpl; [easy|].
  f_equal.
  - specialize (H 0%nat a eq_refl). now rewrite Nat.add_0_r in H.
  - apply IH. intros j x Hj. specialize (H (S j) x Hj).
    now replace (S i + j)%nat with (i + S j)%nat by lia.
Qed.

(** ** The stage loops *)

Section StageLoops.

Variable dtc : R.
Variable stage_ks : list dat.

(** One pass of the inner loop adds [dtc * w i * ks[base+i]] to field [i]. *)
Lemma accumulate_fields_ok (weight : nat -> result R) (w : nat -> R) (base : nat) :
  forall target i,
    (forall j d, nth_error target j = Some d ->
       weight (i + j)%nat = Ok (w (i + j)%nat) /\
       exists k, nth_error stage_ks (base + (i + j)) = Some k /\ length k = length d) ->
    accumulate_fields dtc weight stage_ks base i target =
      (Ok tt,
       mapi_from (fun j d => vadd d (vscale (dtc * w j) (nth (base + j) stage_ks []))) i target).
Proof.
  induction target as [|d rest IH]; intros i H; simpl; [easy|].
  destruct (H 0%nat d eq_refl) as [Hw [k [Hk Hlen]]].
  rewrite Nat.add_0_r in Hw, Hk.
  rewrite Hw. simpl. unfold getitem. rewrite Hk. simpl.
  rewrite iadd_same_shape by (now rewrite vscale_length).
  rewrite IH.
  - now rewrite (nth_error_nth _ _ _ Hk).
  - intros j x Hj. specialize (H (S j) x Hj).
    now replace (S i + j)%nat with (i + S j)%nat by lia.
Qed.

Lemma accumulate_stages_ok (weight : nat -> nat -> result R) (w : nat -> nat -> R)
  (nf : nat) :
  forall stages target,
    (forall s j d, In s stages -> nth_error target j = Some d ->
       weight s j = Ok (w s j)) ->
    stages_fit stage_ks nf stages target ->
    accumulate_stages dtc weight stage_ks nf stages target =
      (Ok tt,
       mapi (fun j d =>
               vadd d (stage_sum (fun s i => dtc * w s i) stage_ks nf j (length d) stages))
            target).
Proof.
  unfold mapi.
  induction stages as [|s later IH]; intros target Hw Hfit; simpl.
  - f_equal. symmetry. apply mapi_from_id. intros j d _. apply vadd_vzero.
  - rewrite (accumulate_fields_ok (weight s) (w s) (nf * s)).
    + rewrite IH.
      * f_equal. rewrite mapi_from_compose. apply mapi_from_ext_in.
        intros j d Hj. simpl.
        destruct (Hfit s j d (or_introl eq_refl) Hj) as [k [Hk Hlen]].
        rewrite (nth_error_nth _ _ _ Hk).
        rewrite vadd_length by (now rewrite vscale_length).
        apply vadd_assoc.
      * intros s' j d' Hs' Hj. rewrite mapi_from_nth_error in Hj.
        destruct (nth_error target j) as [d|] eqn:E; [|discriminate].
        apply (Hw s' j d); [now right|exact E].
      * intros s' j d' Hs' Hj. rewrite mapi_from_nth_error in Hj.
        destruct (nth_error target j) as [d|] eqn:E; [|discriminate].
        simpl in Hj. injection Hj as <-.
        destruct (Hfit s' j d (or_intror Hs') E) as [k' [Hk' Hlen']].
        destruct (Hfit s j d (or_introl eq_refl) E) as [k [Hk Hlen]].
        exists k'. split; [exact Hk'|].
        simpl. rewrite (nth_error_nth _ _ _ Hk).
        rewrite vadd_length by (now rewrite vscale_length). exact Hlen'.
    + intros j d Hj. simpl. split.
      * apply (Hw s j d); [now left|exact Hj].
      * apply (Hfit s j d); [now left|exact Hj].
Qed.

Lemma stage_sum_scale (x : R) (w : nat -> nat -> R) (nf i n : nat) (stages : list nat) :
  stage_sum (fun s j => x * w s j) stage_ks nf i n stages =
  vscale x (stage_sum w stage_ks nf i n stages).
Proof.
  induction stages as [|s later IH]; simpl.
  - now rewrite vscale_vzero.
  - now rewrite IH, vscale_vadd, vscale_vscale.
Qed.

End StageLoops.

(** ** The identity splitting *)

Lemma dot_indicator (i : nat) :
  forall x a,
    dot (map (fun j => if Nat.eqb i j then 1 else 0) (seq a (length x))) x =
    if (a <=? i)%nat && (i <? a + length x)%nat then nth (i - a) x 0 else 0.
Proof.
  unfold dot.
  induction x as [|y x IH]; intro a; simpl.
  - destruct ((a <=? i)%nat && (i <? a + 0)%nat) eqn:E; [|easy].
    apply andb_prop in E as [E1 E2].
    apply Nat.leb_le in E1. apply Nat.ltb_lt in E2. lia.
  - rewrite IH.
    destruct (Nat.eqb_spec i a) as [->|Hne].
    + rewrite Nat.leb_refl, Nat.sub_diag.
      replace (a <? a + S (length x))%nat with true
        by (symmetry; apply Nat.ltb_lt; lia).
      replace (S a <=? a)%nat with false
        by (symmetry; apply Nat.leb_gt; lia).
      simpl. ring.
    + destruct (Nat.leb_spec (S a) i) as [Hle|Hgt].
      * replace (a <=? i)%nat with true by (symmetry; apply Nat.leb_le; lia).
        replace (i <? a + S (length x))%nat with (i <? S a + length x)%nat
          by (f_equal; lia).
        simpl. destruct (i <? S (a + length x))%nat.
        -- replace (i - a)%nat with (S (i - S a)) by lia. simpl. ring.
        -- ring.
      * replace (a <=? i)%nat with false by (symmetry; apply Nat.leb_gt; lia).
        simpl. ring.
Qed.

Lemma map_nth_seq (x : list R) : map (fun i => nth i x 0) (seq 0 (length x)) = x.
Proof.
  apply nth_error_ext. intro n.
  rewrite nth_error_map, nth_error_seq.
  destruct (Nat.ltb_spec n (length x)) as [Hlt|Hge]; simpl.
  - now rewrite (nth_error_nth' x 0 Hlt).
  - symmetry. now apply nth_error_None.
Qed.

Lemma mat_vec_eye (x : list R) : mat_vec (eye (length x)) x = x.
Proof.
  unfold mat_vec, eye, eye_row. rewrite map_map.
  transitivity (map (fun i => nth i x 0) (seq 0 (length x)));
    [|apply map_nth_seq].
  apply map_ext_in. intros i Hi. apply in_seq in Hi.
  rewrite dot_indicator. simpl.
  replace (i <? length x)%nat with true by (symmetry; apply Nat.ltb_lt; lia).
  now rewrite Nat.sub_0_r.
Qed.

(** With the identity for [A2], what [numpy.linalg.solve] returns is [b]. *)
Lemma solves_eye (n : nat) (b0 x : list R) :
  length b0 = n -> solves (eye n) b0 x -> x = b0.
Proof.
  intros Hn [Hlen Hmv]. subst n. rewrite <- Hlen in Hmv.
  now rewrite mat_vec_eye in Hmv.
Qed.

(** ** [TimeStepper._update] *)

Section Update.

Variable linalg_solve : matrix -> list R -> result (list R).

(** C2.  Once the stages are solved, [_update] adds to each field [i] of
    [u0] the increment [dt * sum_s x[s] * ks[num_fields*s+i]], where [x] is
    what [numpy.linalg.solve(A2, b)] returned, that is [A2^{-1} b]; with the
    default splitting [AI], [A2] is the identity, [x] is [b] and the
    increment is the plain [b]-weighted combination. *)
Theorem update_adds_weighted_stages (st : TimeStepper) (A1 A2 : matrix) (x : list R) :
  splitting st (A (butcher_tableau st)) = (A1, A2) ->
  linalg_solve A2 (b (butcher_tableau st)) = Ok x ->
  solves A2 (b (butcher_tableau st)) x ->
  length (b (butcher_tableau st)) = num_stages st ->
  stages_fit (ks st) (num_fields st) (seq 0 (num_stages st)) (u0 st) ->
  _update linalg_solve st =
    (Ok tt,
     set_u0 st
       (mapi (fun i u =>
                vadd u (rk_increment (dt st) x (ks st) (num_fields st)
                          (num_stages st) i (length u)))
             (u0 st)))
  /\ (splitting st = AI ->
      length (A (butcher_tableau st)) = num_stages st ->
      x = b (butcher_tableau st)).
Proof.
  intros Hsplit Hsolve Hx Hb Hfit. split.
  - unfold _update. rewrite Hsplit, Hsolve.
    rewrite (accumulate_stages_ok (dt st) (ks st) _ (fun s _ => nth s x 0)).
    + f_equal. f_equal. unfold mapi. apply mapi_from_ext_in.
      intros j d _. unfold rk_increment. now rewrite stage_sum_scale.
    + intros s j d Hs _. apply in_seq in Hs. unfold getitem.
      destruct Hx as [Hlen _].
      rewrite (nth_error_nth' x 0); [easy|lia].
    + exact Hfit.
  - intros HAI HA. rewrite HAI in Hsplit. unfold AI in Hsplit.
    injection Hsplit as _ <-.
    apply (solves_eye (length (A (butcher_tableau st)))); [lia|exact Hx].
Qed.

End Update.

(** One backward Euler step of [du/dt = -u] from 1 with [dt = 0.1] gives
    [1/1.1]. *)
Example euler_step :
  fst (advance Examples.diag_solve Examples.euler_stepper) = Ok tt /\
  u0 (snd (advance Examples.diag_solve Examples.euler_stepper)) = [[1 / 1.1]].
Proof.
  split; [reflexivity|].
  unfold advance, _update. simpl. unfold vscale, vadd; simpl.
  replace (1 + 0.1) with 1.1 by lra.
  match goal with
  | |- [[?x]] = _ => replace x with (1 / 1.1) by lra
  end.
  reflexivity.
Qed.

Lemma update_adds_weighted_stages_witness :
  _update Examples.diag_solve Examples.euler_solved =
    (Ok tt,
     set_u0 Examples.euler_solved
       (mapi (fun i u =>
                vadd u (rk_increment (dt Examples.euler_solved) [1 / 1]
                          (ks Examples.euler_solved) 1 1 i (length u)))
             (u0 Examples.euler_solved)))
  /\ (splitting Examples.euler_solved = AI ->
      length (A (butcher_tableau Examples.euler_solved)) = 1%nat ->
      [1 / 1] = b (butcher_tableau Examples.euler_solved)).
Proof.
  apply (update_adds_weighted_stages Examples.diag_solve Examples.euler_solved
           [[1]] (eye 1) [1 / 1]).
  - reflexivity.
  - reflexivity.
  - split; [reflexivity|].
    unfold mat_vec, dot; simpl. f_equal. lra.
  - reflexivity.
  - intros s j d Hs Hj. simpl in Hs. destruct Hs as [<-|[]].
    destruct j as [|j]; simpl in Hj.
    + injection Hj as <-. eexists. split; [reflexivity|reflexivity].
    + destruct j; discriminate.
Defined.

(** ** [AdaptiveTimeStepper._estimate_error] *)

Lemma vzero_vadd (v : dat) : vadd (vzero (length v)) v = v.
Proof.
  unfold vadd, vzero. induction v as [|a v IH]; simpl; [easy|].
  rewrite IH. f_equal. ring.
Qed.

Lemma stage_sum_length (w : nat -> nat -> R) (stage_ks : list dat) (nf i n : nat) :
  forall stages,
    (forall s, In s stages -> length (nth (nf * s + i) stage_ks []) = n) ->
    length (stage_sum w stage_ks nf i n stages) = n.
Proof.
  induction stages as [|s later IH]; intro H; simpl.
  - apply repeat_length.
  - rewrite vadd_length; rewrite vscale_length.
    + apply H. now left.
    + rewrite IH; [apply H; now left|]. intros s' Hs'. apply H. now right.
Qed.

Section EstimateError.

Variable norm : Function -> R.

(** What the loop of [_estimate_error] computes: the weight of stage [s] in
    field [i] is [delb[i]], the entry of the field, for every stage. *)
Lemma estimate_error_computes (st : Adaptive.AdaptiveTimeStepper) :
  let bs := Adaptive.base st in
  (length (Adaptive.error_func st) <= length (Adaptive.delb st))%nat ->
  stages_fit (ks bs) (num_fields bs) (seq 0 (num_stages bs))
    (Adaptive.error_func st) ->
  let e := mapi (fun i d =>
                   vscale (dt bs)
                     (stage_sum (fun _ j => nth j (Adaptive.delb st) 0) (ks bs)
                        (num_fields bs) i (length d) (seq 0 (num_stages bs))))
                (Adaptive.error_func st) in
  Adaptive._estimate_error norm st = (Ok (norm e), Adaptive.set_error_func st e).
Proof.
  intros bs Hlen Hfit e. unfold Adaptive._estimate_error. fold bs.
  rewrite (accumulate_stages_ok (dt bs) (ks bs) _
             (fun _ j => nth j (Adaptive.delb st) 0)).
  - assert (E : mapi
        (fun j d =>
           vadd d (stage_sum (fun _ i => dt bs * nth i (Adaptive.delb st) 0)
                     (ks bs) (num_fields bs) j (length d) (seq 0 (num_stages bs))))
        (map (fun e0 => vzero (length e0)) (Adaptive.error_func st)) = e).
    { unfold e, mapi. apply nth_error_ext. intro n.
      rewrite !mapi_from_nth_error, nth_error_map. 
      destruct (@nth_error (list R) (Adaptive.error_func st) n) as [d|] eqn:E; [|easy].
      simpl. f_equal. unfold vzero at 1 2. rewrite repeat_length.
      rewrite stage_sum_scale.
      rewrite <- (vzero_vadd (vscale _ _)) at 2.
      rewrite vscale_length, stage_sum_length; [easy|].
      intros s Hs. destruct (Hfit s n d Hs E) as [k [Hk Hl]].
      now rewrite (nth_error_nth _ _ _ Hk). }
    now rewrite E.
  - intros s j d _ Hj. rewrite nth_error_map in Hj. 
    destruct (@nth_error (list R) (Adaptive.error_func st) j) as [d0|] eqn:E; [|discriminate].
    unfold getitem. rewrite (nth_error_nth' (Adaptive.delb st) 0); [easy|].
    apply Nat.lt_le_trans with (length (Adaptive.error_func st)); [|exact Hlen].
    apply nth_error_Some. intro Hn. unfold dat in *. congruence.
  - intros s j d Hs Hj. rewrite nth_error_map in Hj. 
    destruct (@nth_error (list R) (Adaptive.error_func st) j) as [d0|] eqn:E; [|discriminate].
    simpl in Hj. injection Hj as <-.
    destruct (Hfit s j d0 Hs E) as [k [Hk Hl]].
    exists k. split; [exact Hk|]. unfold vzero. now rewrite repeat_length.
Qed.

(** C1.  On the two-stage pair with [delb = b - btilde = [-1/2, 1/2]] and both
    stage values equal to 1, [_estimate_error] returns the norm of [-1]:
    both stages are weighted by [delb[0]], the entry of the field.  The
    difference of the two increments, [dt * sum_s delb[s] * k_s], is 0. *)
Theorem estimate_error_weights_by_field :
  Adaptive._estimate_error norm (Examples.pair_stepper 1 1 0) =
    (Ok (norm [[-1]]),
     Adaptive.set_error_func (Examples.pair_stepper 1 1 0) [[-1]])
  /\ Adaptive.error_increment_spec (Examples.pair_stepper 1 1 0) = [[0]]
  /\ Adaptive.__init__ Examples.embedded_pair 0 1 [[1]] 1 0 [[1]; [1]] []
       (Examples.constant_solver 1) =
     Ok (Examples.pair_stepper 1 1 0).
Proof.
  split; [|split].
  - unfold Adaptive._estimate_error. simpl.
    unfold vscale, vadd, vzero; simpl.
    match goal with
    | |- context [norm [[?x]]] => replace x with (-1) by lra
    end.
    reflexivity.
  - unfold Adaptive.error_increment_spec, mapi. simpl.
    unfold vscale, vadd, vzero; simpl. do 2 f_equal. lra.
  - reflexivity.
Qed.

(** With more fields than stages the same subscript runs off [delb]. *)
Example estimate_error_index_error :
  fst (Adaptive._estimate_error norm
         {| Adaptive.base :=
              RK.__init__ Examples.implicit_euler 0 1 [[1]; [1]] AI [[1]; [1]] []
                Examples.decay_solver;
            Adaptive.tol := 1; Adaptive.dt_min := 0; Adaptive.delb := [1];
            Adaptive.error_func := [[0]; [0]] |}) = Raise IndexError.
Proof. reflexivity. Qed.

End EstimateError.

(** ** Frame properties of the Runge-Kutta stepper *)

Lemma refresh_bcs_frame (st : TimeStepper) :
  u0 (refresh_bcs st) = u0 st /\ t (refresh_bcs st) = t st /\
  dt (refresh_bcs st) = dt st /\ ks (refresh_bcs st) = ks st /\
  butcher_tableau (refresh_bcs st) = butcher_tableau st.
Proof. now unfold refresh_bcs. Qed.

Lemma solver_solve_frame (st : TimeStepper) :
  u0 (snd (solver_solve st)) = u0 st /\ t (snd (solver_solve st)) = t st /\
  dt (snd (solver_solve st)) = dt st /\
  butcher_tableau (snd (solver_solve st)) = butcher_tableau st.
Proof.
  unfold solver_solve. now destruct (solve (solver st) (stage_problem st)).
Qed.

Section Frames.

Variable linalg_solve : matrix -> list R -> result (list R).
Variable norm : Function -> R.

Lemma update_frame (st : TimeStepper) :
  t (snd (_update linalg_solve st)) = t st /\
  dt (snd (_update linalg_solve st)) = dt st /\
  ks (snd (_update linalg_solve st)) = ks st /\
  butcher_tableau (snd (_update linalg_solve st)) = butcher_tableau st.
Proof.
  unfold _update.
  destruct (splitting st (A (butcher_tableau st))) as [A1 A2].
  destruct (linalg_solve A2 (b (butcher_tableau st))); [|easy].
  now destruct (accumulate_stages _ _ _ _ _ _).
Qed.

Lemma estimate_error_frame (st : Adaptive.AdaptiveTimeStepper) :
  let st' := snd (Adaptive._estimate_error norm st) in
  Adaptive.base st' = Adaptive.base st /\ Adaptive.tol st' = Adaptive.tol st /\
  Adaptive.dt_min st' = Adaptive.dt_min st /\ Adaptive.delb st' = Adaptive.delb st.
Proof.
  unfold Adaptive._estimate_error.
  destruct (accumulate_stages _ _ _ _ _ _) as [[u|e] f]; now simpl.
Qed.

End Frames.

(** ** The scale factor *)

Lemma truediv_ok (x y : R) : y <> 0 -> Adaptive.truediv x y = Ok (x / y).
Proof. intro H. unfold Adaptive.truediv. now destruct (Req_dec_T y 0). Qed.

Lemma truediv_zero (x : R) : Adaptive.truediv x 0 = Raise ZeroDivisionError.
Proof. unfold Adaptive.truediv. now destruct (Req_dec_T 0 0). Qed.

Lemma truediv_inv (x y q : R) : Adaptive.truediv x y = Ok q -> y <> 0 /\ q = x / y.
Proof.
  unfold Adaptive.truediv. destruct (Req_dec_T y 0); [discriminate|].
  intro H. injection H as <-. now split.
Qed.

Lemma pow_positive (x y : R) :
  0 < x -> Adaptive.pow x y = Ok (Adaptive.PyFloat (Rpower x y)).
Proof. intro H. unfold Adaptive.pow. now destruct (Rlt_dec 0 x). Qed.

(** For a positive ratio the code computes [0.84 * (tol/err)^(1/(order-1))]. *)
Lemma scale_factor_formula (tol err : R) (order : Z) :
  err <> 0 -> order <> 1%Z -> 0 < tol / err ->
  Adaptive.scale_factor tol err order =
    Ok (Adaptive.PyFloat (0.84 * Rpower (tol / err) (1 / IZR (order - 1)))).
Proof.
  intros He Ho Hr. unfold Adaptive.scale_factor.
  rewrite (truediv_ok tol err He). simpl.
  rewrite truediv_ok; simpl.
  - now rewrite pow_positive.
  - intro H. apply eq_IZR_R0 in H. lia.
Qed.


(** The two branches of the clamp are [max 0.1 (min 4.0 q)]. *)
Lemma clamp_float (x : R) :
  Adaptive.clamp (Adaptive.PyFloat x) = Ok (Rmax 0.1 (Rmin 4.0 x)).
Proof.
  unfold Adaptive.clamp, Rmax, Rmin.
  destruct (Rle_dec x 0.1); destruct (Rge_dec x 4.0);
    destruct (Rle_dec 4.0 x); try lra;
    destruct (Rle_dec 0.1 4.0); destruct (Rle_dec 0.1 x); try lra;
    f_equal; lra.
Qed.

Lemma clamp_bounds (q : Adaptive.pynum) (x : R) :
  Adaptive.clamp q = Ok x -> 0.1 <= x <= 4.0.
Proof.
  destruct q as [y|]; [|discriminate]. unfold Adaptive.clamp.
  destruct (Rle_dec y 0.1); [intro H; injection H as <-; lra|].
  destruct (Rge_dec y 4.0); intro H; injection H as <-; lra.
Qed.

(** [x^y <= 1] for [0 < x <= 1] and [0 < y]. *)
Lemma Rpower_le_1 (x y : R) : 0 < x <= 1 -> 0 < y -> Rpower x y <= 1.
Proof.
  intros [Hx0 Hx1] Hy. unfold Rpower. rewrite <- exp_0.
  destruct (Req_dec_T x 1) as [->|Hne].
  - rewrite ln_1, Rmult_0_r. lra.
  - left. apply exp_increasing.
    assert (ln x < 0) by (rewrite <- ln_1; apply ln_increasing; lra).
    nra.
Qed.

Lemma clamped_scale_factor_formula (tol err : R) (order : Z) (q : R) :
  Adaptive.clamped_scale_factor tol err order = Ok q ->
  0 < tol / err ->
  q = Rmax 0.1 (Rmin 4.0 (0.84 * Rpower (tol / err) (1 / IZR (order - 1)))).
Proof.
  unfold Adaptive.clamped_scale_factor. intros H Hr.
  assert (He : err <> 0).
  { intro E. subst err. unfold Adaptive.scale_factor in H.
    now rewrite truediv_zero in H. }
  assert (Ho : order <> 1%Z).
  { intro E. subst order. unfold Adaptive.scale_factor in H.
    rewrite (truediv_ok _ _ He) in H. simpl in H.
    now rewrite truediv_zero in H. }
  rewrite (scale_factor_formula _ _ _ He Ho Hr) in H. cbn [Py.bind] in H.
  rewrite clamp_float in H. now injection H as <-.
Qed.

Lemma clamped_scale_factor_bounds (tol err : R) (order : Z) (q : R) :
  Adaptive.clamped_scale_factor tol err order = Ok q -> 0.1 <= q <= 4.0.
Proof.
  unfold Adaptive.clamped_scale_factor.
  destruct (Adaptive.scale_factor tol err order) as [q0|]; [|discriminate].
  apply clamp_bounds.
Qed.

(** ** [AdaptiveTimeStepper.advance] *)

Section AdaptiveAdvance.

Variable linalg_solve : matrix -> list R -> result (list R).
Variable norm : Function -> R.

(** The body of the loop, written over the stepper it starts from. *)
Lemma attempt_unfold (st : Adaptive.AdaptiveTimeStepper) :
  Adaptive.attempt linalg_solve norm st =
    match fst (Adaptive.after_solve st) with
    | Raise e =>
        Adaptive.Raised Adaptive.InSolve e
          (Adaptive.set_base st (snd (Adaptive.after_solve st)))
    | Ok _ =>
        match fst (Adaptive.after_estimate norm st) with
        | Raise e =>
            Adaptive.Raised Adaptive.InEstimateError e
              (snd (Adaptive.after_estimate norm st))
        | Ok err =>
            match Adaptive.clamped_scale_factor (Adaptive.tol st) err
                    (order (butcher_tableau (Adaptive.base st))) with
            | Raise e =>
                Adaptive.Raised Adaptive.InScaleFactor e
                  (snd (Adaptive.after_estimate norm st))
            | Ok q =>
                let dtnew := q * dt (Adaptive.base st) in
                if Rge_dec err (Adaptive.tol st) then
                  Adaptive.Rejected
                    (Adaptive.set_base (snd (Adaptive.after_estimate norm st))
                       (set_dt (snd (Adaptive.after_solve st)) dtnew))
                else if Rle_dec dtnew (Adaptive.dt_min st) then
                  Adaptive.Raised Adaptive.AtMinimumStep
                    (RuntimeError Adaptive.minimum_step_message)
                    (snd (Adaptive.after_estimate norm st))
                else
                  match fst (_update linalg_solve (snd (Adaptive.after_solve st))) with
                  | Raise e =>
                      Adaptive.Raised Adaptive.InUpdate e
                        (Adaptive.set_base (snd (Adaptive.after_estimate norm st))
                           (snd (_update linalg_solve (snd (Adaptive.after_solve st)))))
                  | Ok _ =>
                      Adaptive.Accepted err dtnew
                        (Adaptive.set_base (snd (Adaptive.after_estimate norm st))
                           (set_dt (snd (_update linalg_solve
                                           (snd (Adaptive.after_solve st)))) dtnew))
                  end
            end
        end
    end.
Proof.
  unfold Adaptive.attempt, Adaptive.after_estimate, Adaptive.after_solve.
  set (solved := solver_solve (refresh_bcs (Adaptive.base st))).
  destruct (solver_solve_frame (refresh_bcs (Adaptive.base st)))
    as (_ & _ & Hdt & Hbt).
  fold solved in Hdt, Hbt.
  set (estimated := Adaptive._estimate_error norm (Adaptive.set_base st (snd solved))).
  destruct (estimate_error_frame norm (Adaptive.set_base st (snd solved)))
    as (Hb1 & Ht1 & Hm1 & _).
  fold estimated in Hb1, Ht1, Hm1. simpl in Hb1, Ht1, Hm1.
  destruct solved as [[[]|e] bs]; simpl in *; [|reflexivity].
  fold estimated.
  destruct estimated as [[err|e] st1]; simpl in *; [|reflexivity].
  rewrite Ht1, Hm1, Hb1, Hbt, Hdt.
  destruct (Adaptive.clamped_scale_factor _ _ _) as [q|e]; [|reflexivity].
  destruct (Rge_dec err (Adaptive.tol st)); [reflexivity|].
  destruct (Rle_dec _ _); [reflexivity|].
  now destruct (_update linalg_solve bs) as [[[]|e] bs'].
Qed.

Lemma after_solve_frame (st : Adaptive.AdaptiveTimeStepper) :
  u0 (snd (Adaptive.after_solve st)) = u0 (Adaptive.base st) /\
  t (snd (Adaptive.after_solve st)) = t (Adaptive.base st) /\
  dt (snd (Adaptive.after_solve st)) = dt (Adaptive.base st) /\
  butcher_tableau (snd (Adaptive.after_solve st)) =
    butcher_tableau (Adaptive.base st).
Proof.
  unfold Adaptive.after_solve.
  destruct (solver_solve_frame (refresh_bcs (Adaptive.base st))) as (H1 & H2 & H3 & H4).
  now rewrite H1, H2, H3, H4.
Qed.

Lemma after_estimate_frame (st : Adaptive.AdaptiveTimeStepper) :
  Adaptive.base (snd (Adaptive.after_estimate norm st)) = snd (Adaptive.after_solve st) /\
  Adaptive.tol (snd (Adaptive.after_estimate norm st)) = Adaptive.tol st /\
  Adaptive.dt_min (snd (Adaptive.after_estimate norm st)) = Adaptive.dt_min st.
Proof.
  unfold Adaptive.after_estimate.
  destruct (estimate_error_frame norm
              (Adaptive.set_base st (snd (Adaptive.after_solve st))))
    as (H1 & H2 & H3 & _).
  now rewrite H1, H2, H3.
Qed.

(** A rejected pass changes [dt] and the work arrays only. *)
Lemma attempt_rejected_frame (s s' : Adaptive.AdaptiveTimeStepper) :
  Adaptive.attempt linalg_solve norm s = Adaptive.Rejected s' ->
  Adaptive.tol s' = Adaptive.tol s /\
  Adaptive.dt_min s' = Adaptive.dt_min s /\
  butcher_tableau (Adaptive.base s') = butcher_tableau (Adaptive.base s) /\
  u0 (Adaptive.base s') = u0 (Adaptive.base s) /\
  t (Adaptive.base s') = t (Adaptive.base s).
Proof.
  rewrite attempt_unfold.
  destruct (after_solve_frame s) as (Hu & Ht & _ & Hbt).
  destruct (after_estimate_frame s) as (_ & Htol & Hmin).
  destruct (fst (Adaptive.after_solve s)); [|discriminate].
  destruct (fst (Adaptive.after_estimate norm s)) as [err|]; [|discriminate].
  destruct (Adaptive.clamped_scale_factor _ _ _) as [q|]; [|discriminate].
  cbv zeta.
  destruct (Rge_dec _ _).
  - intro H. injection H as <-. simpl. now rewrite Htol, Hmin, Hu, Ht, Hbt.
  - destruct (Rle_dec _ _); [discriminate|].
    destruct (fst (_update _ _)); discriminate.
Qed.

(** Every pass that does not raise scales [dt] by the clamped factor. *)
Lemma attempt_scaled (s : Adaptive.AdaptiveTimeStepper) :
  match Adaptive.attempt linalg_solve norm s with
  | Adaptive.Raised _ _ _ => True
  | _ => Adaptive.scaled_attempt linalg_solve norm s
  end.
Proof.
  unfold Adaptive.scaled_attempt. rewrite attempt_unfold.
  destruct (fst (Adaptive.after_solve s)); [|exact I].
  destruct (fst (Adaptive.after_estimate norm s)) as [err|]; [|exact I].
  destruct (Adaptive.clamped_scale_factor _ _ _) as [q|] eqn:Eq; [|exact I].
  cbv zeta.
  destruct (Rge_dec err (Adaptive.tol s)) as [Hge|Hlt].
  - exists err, q.
    split; [exact Eq|].
    split; [apply (clamped_scale_factor_bounds _ _ _ _ Eq)|].
    split; [now apply clamped_scale_factor_formula|].
    split; [lra|reflexivity].
  - destruct (Rle_dec _ _); [exact I|].
    destruct (fst (_update _ _)); [|exact I].
    exists err, q.
    split; [exact Eq|].
    split; [apply (clamped_scale_factor_bounds _ _ _ _ Eq)|].
    split; [now apply clamped_scale_factor_formula|].
    repeat split. lra.
Qed.

(** What a returning call went through: rejected passes, then one
    accepted pass [st_a]. *)
Lemma advance_returns_inv (fuel : nat) :
  forall st st' err dtnew,
    Adaptive.advance linalg_solve norm fuel st = (Adaptive.Returns err dtnew, st') ->
    Forall (Adaptive.scaled_attempt linalg_solve norm)
      (Adaptive.attempts linalg_solve norm fuel st) /\
    exists st_a,
      In st_a (Adaptive.attempts linalg_solve norm fuel st) /\
      Adaptive.attempt linalg_solve norm st_a = Adaptive.Accepted err dtnew st' /\
      Adaptive.tol st_a = Adaptive.tol st /\
      Adaptive.dt_min st_a = Adaptive.dt_min st /\
      butcher_tableau (Adaptive.base st_a) = butcher_tableau (Adaptive.base st) /\
      u0 (Adaptive.base st_a) = u0 (Adaptive.base st) /\
      t (Adaptive.base st_a) = t (Adaptive.base st).
Proof.
  induction fuel as [|fuel IH]; intros st st' err dtnew H; simpl in H; [discriminate|].
  simpl. pose proof (attempt_scaled st) as Hs.
  destruct (Adaptive.attempt linalg_solve norm st) as [s1|e1 d1 s1|site e s1] eqn:E.
  - destruct (IH _ _ _ _ H) as (Hall & st_a & Hin & Hacc & Ht & Hm & Hb & Hu & Htt).
    destruct (attempt_rejected_frame _ _ E) as (Ht' & Hm' & Hb' & Hu' & Htt').
    split; [now constructor|].
    exists st_a. repeat split; try congruence. now right.
  - injection H as -> -> ->.
    split; [constructor; [exact Hs|constructor]|].
    exists st. repeat split; try easy. now left.
  - discriminate.
Qed.

(** What each pass leaves of [u0] and [t]. *)
Lemma attempt_frame (s : Adaptive.AdaptiveTimeStepper) :
  match Adaptive.attempt linalg_solve norm s with
  | Adaptive.Rejected s' =>
      u0 (Adaptive.base s') = u0 (Adaptive.base s) /\
      t (Adaptive.base s') = t (Adaptive.base s)
  | Adaptive.Accepted _ _ s' =>
      u0 (Adaptive.base s') =
        u0 (snd (_update linalg_solve (snd (Adaptive.after_solve s)))) /\
      t (Adaptive.base s') = t (Adaptive.base s)
  | Adaptive.Raised Adaptive.InUpdate _ s' =>
      t (Adaptive.base s') = t (Adaptive.base s)
  | Adaptive.Raised _ _ s' =>
      u0 (Adaptive.base s') = u0 (Adaptive.base s) /\
      t (Adaptive.base s') = t (Adaptive.base s)
  end.
Proof.
  rewrite attempt_unfold.
  destruct (after_solve_frame s) as (Hu & Ht & _ & _).
  destruct (after_estimate_frame s) as (Hb & _ & _).
  destruct (update_frame linalg_solve (snd (Adaptive.after_solve s)))
    as (Hut & _ & _ & _).
  destruct (fst (Adaptive.after_solve s)); [|now simpl].
  destruct (fst (Adaptive.after_estimate norm s)) as [err|];
    [|now rewrite Hb].
  destruct (Adaptive.clamped_scale_factor _ _ _) as [q|]; [|now rewrite Hb].
  cbv zeta.
  destruct (Rge_dec _ _); [now simpl|].
  destruct (Rle_dec _ _); [now rewrite Hb|].
  destruct (fst (_update _ _)); simpl; [split; [reflexivity|]|]; congruence.
Qed.

Lemma advance_frame (fuel : nat) :
  forall st out st',
    Adaptive.advance linalg_solve norm fuel st = (out, st') ->
    t (Adaptive.base st') = t (Adaptive.base st) /\
    match out with
    | Adaptive.Returns err dtnew =>
        exists st_a,
          In st_a (Adaptive.attempts linalg_solve norm fuel st) /\
          u0 (Adaptive.base st_a) = u0 (Adaptive.base st) /\
          Adaptive.attempt linalg_solve norm st_a = Adaptive.Accepted err dtnew st' /\
          u0 (Adaptive.base st') =
            u0 (snd (_update linalg_solve (snd (Adaptive.after_solve st_a))))
    | Adaptive.Raises Adaptive.InUpdate _ => True
    | _ => u0 (Adaptive.base st') = u0 (Adaptive.base st)
    end.
Proof.
  induction fuel as [|fuel IH]; intros st out st' H; simpl in H.
  - injection H as <- <-. now split.
  - simpl. pose proof (attempt_frame st) as Hf.
    destruct (Adaptive.attempt linalg_solve norm st) as [s1|e1 d1 s1|site e s1] eqn:E.
    + destruct Hf as [Hu Ht].
      destruct (IH _ _ _ H) as [Ht' Hout]. split; [congruence|].
      destruct out as [err dtnew|site e|].
      * destruct Hout as (st_a & Hin & Hua & Hacc & Hup).
        exists st_a. repeat split; try easy; [now right|congruence].
      * destruct site; try exact I; congruence.
      * congruence.
    + injection H as <- <-. destruct Hf as [Hu Ht]. split; [exact Ht|].
      exists st. repeat split; try easy. now left.
    + injection H as <- <-. destruct site; now destruct Hf.
Qed.



(** C6.  [u0] is written only by [_update] at the end of an accepted step.
    The base [advance] and [_update] leave [t] and [dt] alone; when the
    solve raises, the base [advance] raises the same and [u0] is as before;
    [_update] runs only after a solve that returned.  In the adaptive
    [advance], [t] is never written, and [u0] is as before unless the accept
    branch ran: after rejected passes, solver or estimate failures, the
    minimum-step error, or when the loop is still rejecting. *)
Theorem u0_written_only_on_accept :
  (forall st : TimeStepper,
     t (snd (advance linalg_solve st)) = t st /\
     dt (snd (advance linalg_solve st)) = dt st /\
     t (snd (_update linalg_solve st)) = t st /\
     dt (snd (_update linalg_solve st)) = dt st)
  /\
  (forall (st : TimeStepper) (e : exn),
     fst (solver_solve (refresh_bcs st)) = Raise e ->
     fst (advance linalg_solve st) = Raise e /\
     u0 (snd (advance linalg_solve st)) = u0 st)
  /\
  (forall st : TimeStepper,
     fst (solver_solve (refresh_bcs st)) = Ok tt ->
     advance linalg_solve st =
       _update linalg_solve (snd (solver_solve (refresh_bcs st))))
  /\
  (forall fuel st out st',
     Adaptive.advance linalg_solve norm fuel st = (out, st') ->
     t (Adaptive.base st') = t (Adaptive.base st) /\
     match out with
     | Adaptive.Returns err dtnew =>
         exists st_a,
           In st_a (Adaptive.attempts linalg_solve norm fuel st) /\
           u0 (Adaptive.base st_a) = u0 (Adaptive.base st) /\
           Adaptive.attempt linalg_solve norm st_a =
             Adaptive.Accepted err dtnew st' /\
           u0 (Adaptive.base st') =
             u0 (snd (_update linalg_solve (snd (Adaptive.after_solve st_a))))
     | Adaptive.Raises Adaptive.InUpdate _ => True
     | _ => u0 (Adaptive.base st') = u0 (Adaptive.base st)
     end).
Proof.
  split; [|split; [|split]].
  - intro st.
    destruct (update_frame linalg_solve st) as (Ht & Hdt & _ & _).
    repeat split; try easy; unfold advance;
      destruct (solver_solve_frame (refresh_bcs st)) as (_ & Ht' & Hdt' & _);
      destruct (solver_solve (refresh_bcs st)) as [[[]|e] st2]; simpl in *;
      try easy;
      destruct (update_frame linalg_solve st2) as (Ht2 & Hdt2 & _ & _);
      congruence.
  - intros st e H. unfold advance.
    destruct (solver_solve_frame (refresh_bcs st)) as (Hu & _ & _ & _).
    destruct (solver_solve (refresh_bcs st)) as [[[]|e'] st2]; simpl in *;
      [discriminate|].
    now injection H as ->.
  - intros st H. unfold advance.
    destruct (solver_solve (refresh_bcs st)) as [[[]|e'] st2]; simpl in *;
      [reflexivity|discriminate].
  - apply advance_frame.
Qed.


End AdaptiveAdvance.

(** ** A run of the adaptive stepper on the two-stage pair *)

Lemma pair_after_solve (k tol0 dtmin : R) :
  Adaptive.after_solve (Examples.pair_stepper k tol0 dtmin) =
    (Ok tt, Examples.pair_base k).
Proof. reflexivity. Qed.

Lemma pair_after_estimate (k tol0 dtmin : R) :
  fst (Adaptive.after_estimate Examples.abs_norm
         (Examples.pair_stepper k tol0 dtmin)) = Ok (Rabs k).
Proof.
  unfold Adaptive.after_estimate, Adaptive._estimate_error. simpl.
  unfold vscale, vadd, vzero, Examples.abs_norm; simpl. f_equal.
  rewrite Rplus_0_r, <- (Rabs_Ropp k). f_equal. lra.
Qed.

Lemma clamped_scale_factor_order_2 (tol0 err : R) :
  0 < tol0 -> 0 < err -> 0.1 < 0.84 * (tol0 / err) < 4.0 ->
  Adaptive.clamped_scale_factor tol0 err 2 = Ok (0.84 * (tol0 / err)).
Proof.
  intros Ht He Hq. unfold Adaptive.clamped_scale_factor.
  assert (Hr : 0 < tol0 / err) by now apply Rdiv_lt_0_compat.
  rewrite scale_factor_formula; [|lra|lia|exact Hr].
  cbn [Py.bind]. rewrite clamp_float. simpl.
  replace (1 / 1) with 1 by lra. rewrite (Rpower_1 _ Hr).
  unfold Rmax, Rmin.
  destruct (Rle_dec 4.0 (0.84 * (tol0 / err))); [lra|].
  destruct (Rle_dec 0.1 (0.84 * (tol0 / err))); [reflexivity|lra].
Qed.

Lemma pair_run_accepts :
  fst (Adaptive.advance Examples.diag_solve Examples.abs_norm 1
         (Examples.pair_stepper (1 / 4) 1 0)) =
  Adaptive.Returns (1 / 4) 3.36.
Proof.
  simpl. rewrite attempt_unfold, pair_after_solve, pair_after_estimate.
  cbn [fst snd].
  replace (Rabs (1 / 4)) with (1 / 4) by (symmetry; apply Rabs_right; lra).
  simpl Adaptive.tol. simpl order. simpl dt. simpl Adaptive.dt_min.
  rewrite clamped_scale_factor_order_2 by lra. cbv zeta.
  destruct (Rge_dec (1 / 4) 1); [lra|].
  destruct (Rle_dec _ _); [lra|].
  simpl. f_equal. lra.
Qed.

(** ** An order below 1 *)






(** ** Discontinuous Galerkin in time *)

Lemma last_app_nonempty {X : Type} (l r : list X) (d : X) :
  r <> [] -> last (l ++ r) d = last r d.
Proof.
  intro H. rewrite (app_removelast_last d H).
  rewrite app_assoc. now rewrite !last_last.
Qed.

Lemma nth_error_last {X : Type} (l : list X) (d : X) :
  l <> [] -> nth_error l (length l - 1) = Some (last l d).
Proof.
  intro H. rewrite (app_removelast_last d H) at 1 2.
  rewrite length_app. simpl.
  rewrite nth_error_app2 by lia.
  replace (length (removelast l) + 1 - 1 - length (removelast l))%nat with 0%nat
    by lia.
  reflexivity.
Qed.

Lemma getitem_Some {X : Type} (l : list X) (i : nat) (x : X) :
  getitem l i = Ok x <-> nth_error l i = Some x.
Proof.
  unfold getitem. destruct (nth_error l i) as [y|]; split; intro H;
    try discriminate; now injection H as ->.
Qed.

Lemma getitem_nth {X : Type} (l : list X) (i : nat) (x d : X) :
  getitem l i = Ok x -> nth i l d = x.
Proof. intro H. apply getitem_Some in H. now apply nth_error_nth. Qed.

Lemma getkey_nth {X : Type} (l : list X) (i : nat) (x d : X) :
  getkey l i = Ok x -> nth i l d = x.
Proof.
  unfold getkey. destruct (nth_error l i) as [y|] eqn:E; [|discriminate].
  intro H. injection H as <-. now apply nth_error_nth.
Qed.

Lemma getitemZ_nonneg {X : Type} (l : list X) (i : Z) :
  (0 <= i)%Z -> DG.getitemZ l i = getitem l (Z.to_nat i).
Proof.
  intro H. unfold DG.getitemZ.
  now replace (0 <=? i)%Z with true by (symmetry; apply Z.leb_le; lia).
Qed.

Lemma assign_fields_ok (UUs : list dat) (nf : nat) (k : Z) :
  forall u0bits i u,
    DG.assign_fields UUs nf k i u0bits = (Ok tt, u) ->
    length u = length u0bits /\
    forall j, (j < length u0bits)%nat ->
      exists d, nth_error u j = Some d /\
        DG.getitemZ UUs (Z.of_nat nf * k + Z.of_nat (i + j))%Z = Ok d.
Proof.
  induction u0bits as [|bit rest IH]; intros i u H; simpl in H.
  - injection H as <-. split; [reflexivity|]. intros j Hj. simpl in Hj. lia.
  - destruct (DG.getitemZ UUs (Z.of_nat nf * k + Z.of_nat i)%Z) as [d|e] eqn:E;
      [|discriminate].
    destruct (DG.assign_fields UUs nf k (S i) rest) as [r rest'] eqn:E'.
    injection H as -> <-.
    destruct (IH _ _ E') as [Hlen Hget].
    split; [simpl; now rewrite Hlen|].
    intros [|j] Hj; simpl.
    + exists d. now rewrite Nat.add_0_r.
    + destruct (Hget j) as [d' [Hd' Hg]]; [simpl in Hj; lia|].
      exists d'. split; [exact Hd'|].
      now replace (i + S j)%nat with (S i + j)%nat by lia.
Qed.

(** The loop of [advance] copies one block of the stage unknown: the
    [len(u0bits)] components from index [nf*k] on. *)
Lemma assign_fields_block (UUs : list dat) (nf : nat) (k : Z)
  (u0bits u : list dat) :
  (0 <= k)%Z ->
  DG.assign_fields UUs nf k 0 u0bits = (Ok tt, u) ->
  length u = length u0bits /\
  (forall i, (i < length u0bits)%nat ->
     nth_error u i = nth_error UUs (nf * Z.to_nat k + i)) /\
  u = firstn (length u0bits) (skipn (nf * Z.to_nat k) UUs).
Proof.
  intros Hk H. destruct (assign_fields_ok _ _ _ _ _ _ H) as [Hlen Hget].
  assert (Hnth : forall i, (i < length u0bits)%nat ->
            nth_error u i = nth_error UUs (nf * Z.to_nat k + i)).
  { intros i Hi. destruct (Hget i Hi) as [d [Hd Hg]].
    rewrite getitemZ_nonneg in Hg by lia. apply getitem_Some in Hg.
    replace (Z.to_nat (Z.of_nat nf * k + Z.of_nat (0 + i)))
      with (nf * Z.to_nat k + i)%nat in Hg by nia.
    now rewrite Hd, Hg. }
  split; [exact Hlen|]. split; [exact Hnth|].
  apply nth_error_ext. intro i.
  rewrite nth_error_firstn, nth_error_skipn.
  destruct (Nat.ltb_spec i (length u0bits)) as [Hi|Hi].
  - now apply Hnth.
  - apply nth_error_None. lia.
Qed.

(** What calls of [advance] that return leave as it was. *)
Lemma advance_keeps (st st' : DG.Stepper) :
  DG.advance st = (Ok tt, st') ->
  DG.order st' = DG.order st /\
  DG.num_fields st' = DG.num_fields st /\
  DG.el st' = DG.el st /\
  DG.quadrature st' = DG.quadrature st /\
  DG.bigF st' = DG.bigF st /\
  DG.solver st' = DG.solver st /\
  length (DG.u0 st') = length (DG.u0 st).
Proof.
  unfold DG.advance. intro H.
  destruct (DG.status _) as [[]|e]; [|discriminate].
  destruct (DG.assign_fields _ _ _ _ _) as [r u] eqn:E.
  injection H as -> <-. simpl.
  destruct (assign_fields_ok _ _ _ _ _ _ E) as [Hlen _].
  now repeat split.
Qed.

Lemma advance_n_keeps (n : nat) :
  forall st st',
    DG.advance_n n st = (Ok tt, st') ->
    DG.order st' = DG.order st /\
    DG.num_fields st' = DG.num_fields st /\
    DG.el st' = DG.el st /\
    DG.quadrature st' = DG.quadrature st /\
    DG.bigF st' = DG.bigF st /\
    DG.solver st' = DG.solver st /\
    length (DG.u0 st') = length (DG.u0 st).
Proof.
  induction n as [|n IH]; intros st st' H; simpl in H.
  - injection H as <-. now repeat split.
  - destruct (DG.advance st) as [[[]|e] st1] eqn:E; [|discriminate].
    destruct (advance_keeps _ _ E) as (H1 & H2 & H3 & H4 & H5 & H6 & H7).
    destruct (IH _ _ H) as (K1 & K2 & K3 & K4 & K5 & K6 & K7).
    repeat split; congruence.
Qed.

Lemma summands_form_add (acc term : DG.ufl_form) :
  DG.summands term = [term] ->
  DG.summands (DG.form_add acc term) = DG.summands acc ++ [term].
Proof. intro H. destruct acc; simpl; try reflexivity. exact H. Qed.

Ltac step_bind H :=
  cbv zeta in H;
  match type of H with
  | Py.bind ?c _ = Ok _ =>
      let E := fresh "E" in
      destruct c eqn:E; cbn [Py.bind] in H; [|discriminate H]
  end.

Lemma column_ok (a : matrix) (q : nat) :
  forall col, DG.column a q = Ok col -> col = map (fun row => nth q row 0) a.
Proof.
  induction a as [|row rest IH]; intros col H; simpl in H.
  - now injection H as <-.
  - do 2 step_bind H. injection H as <-. simpl.
    match goal with
    | E1 : getitem row q = Ok _ |- _ =>
        rewrite (getitem_nth _ _ _ 0 E1), <- (IH _ eq_refl)
    end.
    reflexivity.
Qed.

Lemma take_rows_nth (a : matrix) :
  forall perm rows,
    DG.take_rows a perm = Ok rows ->
    length rows = length perm /\
    forall i, (i < length perm)%nat ->
      nth i rows [] = nth (nth i perm 0%nat) a [].
Proof.
  induction perm as [|p rest IH]; intros rows H; simpl in H.
  - injection H as <-. split; [reflexivity|]. intros i Hi. simpl in Hi. lia.
  - do 2 step_bind H. injection H as <-.
    match goal with
    | E1 : getitem a p = Ok _ |- _ =>
        destruct (IH _ eq_refl) as [Hlen Hnth];
        pose proof (getitem_nth _ _ _ [] E1) as Hp
    end.
    split; [simpl; now rewrite Hlen|].
    intros [|i] Hi; simpl; [now rewrite Hp|]. apply Hnth. simpl in Hi. lia.
Qed.

(** [a[perm]], when it is defined, lists the rows of [a] in the order of
    [perm]. *)
Lemma take_rows_permuted (a : matrix) :
  forall perm rows,
    DG.take_rows a perm = Ok rows -> rows = DG.permuted_rows a perm.
Proof.
  induction perm as [|p rest IH]; intros rows H; simpl in H.
  - now injection H as <-.
  - do 2 step_bind H. injection H as <-. simpl.
    match goal with
    | E1 : getitem a p = Ok _ |- _ =>
        rewrite (getitem_nth _ _ _ [] E1), <- (IH _ eq_refl)
    end.
    reflexivity.
Qed.

Lemma quadrature_loop_exact (part : DG.ufl_form) (i : nat) (qpts qwts : list R)
  (basis_vals tab : matrix) (u_scale : DG.ufl_expr -> DG.ufl_expr) (ns : nat) :
  forall qs Fnew Fnew',
    DG.quadrature_loop (DG.F_replace part [(DG.E_v, DG.E_v_np i)]) i qpts qwts
      basis_vals tab u_scale ns qs Fnew = Ok Fnew' ->
    DG.summands Fnew' =
      DG.summands Fnew ++
      map (DG.stage_point_term part qpts qwts basis_vals tab u_scale ns i) qs.
Proof.
  induction qs as [|q later IH]; intros Fnew Fnew' H; simpl in H.
  - injection H as <-. now rewrite app_nil_r.
  - do 6 step_bind H.
    rewrite (IH _ _ H), summands_form_add by reflexivity.
    rewrite <- app_assoc. simpl. do 2 f_equal.
    unfold DG.stage_point_term.
    repeat match goal with
           | E : getitem _ _ = Ok _ |- _ =>
               first [ apply (getitem_nth _ _ _ 0) in E
                     | apply (getitem_nth _ _ _ (@nil R)) in E ]
           | E : DG.column _ _ = Ok _ |- _ => apply column_ok in E
           end.
    match goal with
    | E : DG.matvec ?n ?c = Ok _ |- _ =>
        unfold DG.matvec in E; destruct (Nat.eqb n (length c));
        [|discriminate E]; injection E as <-
    end.
    subst. reflexivity.
Qed.

Lemma stage_loop_exact (part : DG.ufl_form) (qpts qwts : list R)
  (basis_vals tab : matrix) (u_scale : DG.ufl_expr -> DG.ufl_expr) (ns : nat) :
  forall stages Fnew Fnew',
    DG.stage_loop part qpts qwts basis_vals tab u_scale ns stages Fnew = Ok Fnew' ->
    DG.summands Fnew' =
      DG.summands Fnew ++
      flat_map
        (fun i => map (DG.stage_point_term part qpts qwts basis_vals tab u_scale ns i)
                      (seq 0 (length qpts)))
        stages.
Proof.
  induction stages as [|i later IH]; intros Fnew Fnew' H; simpl in H.
  - injection H as <-. now rewrite app_nil_r.
  - step_bind H. rewrite (IH _ _ H).
    match goal with
    | E : DG.quadrature_loop _ _ _ _ _ _ _ _ _ _ = Ok _ |- _ =>
        rewrite (quadrature_loop_exact _ _ _ _ _ _ _ _ _ _ _ E)
    end.
    simpl. now rewrite app_assoc.
Qed.

(** A pass of the inner loop multiplies the [ns] stages with a column of the
    tabulation: the tabulation has one row per stage. *)
Lemma quadrature_loop_stage_count (F_i : DG.ufl_form) (i : nat)
  (qpts qwts : list R) (basis_vals tab : matrix)
  (u_scale : DG.ufl_expr -> DG.ufl_expr) (ns q : nat) (later : list nat)
  (Fnew Fnew' : DG.ufl_form) :
  DG.quadrature_loop F_i i qpts qwts basis_vals tab u_scale ns (q :: later) Fnew
    = Ok Fnew' ->
  length tab = ns.
Proof.
  simpl. intro H. do 3 step_bind H.
  match goal with
  | E : DG.column _ _ = Ok _ |- _ => apply column_ok in E; subst
  end.
  match goal with
  | E : DG.matvec ?n ?c = Ok _ |- _ =>
      unfold DG.matvec in E; destruct (Nat.eqb_spec n (length c)) as [Hn|];
      [|discriminate E]; rewrite length_map in Hn
  end.
  now symmetry.
Qed.

Lemma stage_loop_stage_count (part : DG.ufl_form) (qpts qwts : list R)
  (basis_vals tab : matrix) (u_scale : DG.ufl_expr -> DG.ufl_expr)
  (ns i : nat) (later : list nat) (Fnew Fnew' : DG.ufl_form) :
  qpts <> [] ->
  DG.stage_loop part qpts qwts basis_vals tab u_scale ns (i :: later) Fnew
    = Ok Fnew' ->
  length tab = ns.
Proof.
  intros Hq H. destruct qpts as [|x qpts]; [contradiction|].
  cbn [DG.stage_loop length seq] in H. step_bind H.
  eapply quadrature_loop_stage_count. exact E.
Qed.

Lemma stage_terms_length (part : DG.ufl_form) (qpts qwts : list R)
  (basis_vals tab : matrix) (u_scale : DG.ufl_expr -> DG.ufl_expr) (ns : nat) :
  length (DG.stage_terms part qpts qwts basis_vals tab u_scale ns)
    = (ns * length qpts)%nat.
Proof.
  unfold DG.stage_terms.
  rewrite (flat_map_constant_length (c := length qpts)).
  - now rewrite length_seq.
  - intros i _. now rewrite length_map, length_seq.
Qed.

Lemma stage_terms_quadrature (part : DG.ufl_form) (qpts qwts : list R)
  (basis_vals tab : matrix) (u_scale : DG.ufl_expr -> DG.ufl_expr) (ns : nat) :
  Forall DG.quadrature_term
    (DG.stage_terms part qpts qwts basis_vals tab u_scale ns).
Proof.
  unfold DG.stage_terms. apply Forall_flat_map, Forall_forall. intros i _.
  apply Forall_forall. intros f Hf. apply in_map_iff in Hf.
  destruct Hf as [q [<- _]]. exact I.
Qed.

Lemma single_occurrence (before after : list DG.ufl_form) (x : DG.ufl_form) :
  Forall DG.quadrature_term before -> Forall DG.quadrature_term after ->
  ~ DG.quadrature_term x ->
  forall m, nth_error (before ++ x :: after) m = Some x <-> m = length before.
Proof.
  intros Hb Ha Hx m. split.
  - intro H. destruct (Nat.lt_trichotomy m (length before)) as [Hlt|[Heq|Hgt]].
    + rewrite nth_error_app1 in H by exact Hlt.
      apply nth_error_In in H. rewrite Forall_forall in Hb.
      now specialize (Hb _ H).
    + exact Heq.
    + rewrite nth_error_app2 in H by lia.
      destruct (m - length before)%nat as [|k] eqn:E; [lia|]. simpl in H.
      apply nth_error_In in H. rewrite Forall_forall in Ha.
      now specialize (Ha _ H).
  - intros ->. rewrite nth_error_app2 by lia. now rewrite Nat.sub_diag.
Qed.

(** The permutation of the source is the ordering in words, read on the
    element inside the wrapper when there is a wrapper. *)
Lemma geometric_perm_sorted (L : DG.FiatElement) (perm : list nat) :
  DG.geometric_perm L = Ok perm ->
  exists e,
    (L = DG.DiscontinuousElement e \/
     (L = e /\ exists d, e = DG.CiarletElement d)) /\
    perm = DG.left_interior_right e.
Proof.
  intro H.
  assert (Hp : perm = DG.left_interior_right (DG.unwrap L)).
  { unfold DG.geometric_perm in H. cbv zeta in H.
    unfold DG.left_interior_right, DG.dofs_of_entity.
    destruct (getkey (DG.entity_dofs (DG.unwrap L)) 0%nat) as [d0|] eqn:E0;
      cbn [Py.bind] in H; [|discriminate].
    destruct (getkey d0 0%nat) as [left|] eqn:E1; cbn [Py.bind] in H;
      [|discriminate].
    destruct (getkey (DG.entity_dofs (DG.unwrap L)) 1%nat) as [d1|] eqn:E2;
      cbn [Py.bind] in H; [|discriminate].
    destruct (getkey d1 0%nat) as [interior|] eqn:E3; cbn [Py.bind] in H;
      [|discriminate].
    destruct (getkey d0 1%nat) as [right|] eqn:E4; cbn [Py.bind] in H;
      [|discriminate].
    injection H as <-.
    rewrite (getkey_nth _ _ _ [] E0), (getkey_nth _ _ _ [] E2).
    now rewrite (getkey_nth _ _ _ [] E1), (getkey_nth _ _ _ [] E3),
      (getkey_nth _ _ _ [] E4). }
  destruct L as [d|e]; simpl in Hp.
  - exists (DG.CiarletElement d). split; [|exact Hp].
    right. split; [reflexivity|now exists d].
  - exists e. split; [now left|exact Hp].
Qed.

Section FormProperties.

Variable extract_terms : DG.ufl_form -> DG.ufl_form * DG.ufl_form.
Variable strip_dt_form : DG.ufl_form -> DG.ufl_form.
Variable linalg_solve_matrix : matrix -> matrix -> result matrix.

(** The form that the builder returns, term by term, with the rows of the
    element's tabulations in the order of the permutation. *)
Lemma form_builder_terms (F : DG.SemiDiscreteForm) (L : DG.FiatElement)
  (Q : DG.QuadratureRule) (u : Function) (Fnew : DG.ufl_form) (UU : list dat) :
  DG.getFormDiscGalerkin extract_terms strip_dt_form linalg_solve_matrix F L Q u
    = Ok (Fnew, UU) ->
  exists perm,
    DG.geometric_perm L = Ok perm /\
    (0 < DG.space_dimension L)%nat /\
    UU = concat (repeat (map (fun d => vzero (length d)) u) (DG.space_dimension L)) /\
    (concat (DG.get_points Q) <> [] -> length perm = DG.space_dimension L) /\
    DG.summands Fnew =
      DG.stage_terms (strip_dt_form (fst (extract_terms (DG.form F))))
        (concat (DG.get_points Q)) (DG.get_weights Q)
        (DG.permuted_rows (fst (DG.tabulate L (DG.get_points Q))) perm)
        (DG.permuted_rows (snd (DG.tabulate L (DG.get_points Q))) perm)
        (fun uq => DG.E_mul (DG.E_div (DG.E_real 1) DG.E_dt) uq)
        (DG.space_dimension L)
      ++ DG.jump_term (strip_dt_form (fst (extract_terms (DG.form F))))
      :: DG.stage_terms (snd (extract_terms (DG.form F)))
           (concat (DG.get_points Q)) (DG.get_weights Q)
           (DG.permuted_rows (fst (DG.tabulate L (DG.get_points Q))) perm)
           (DG.permuted_rows (fst (DG.tabulate L (DG.get_points Q))) perm)
           (fun uq => uq) (DG.space_dimension L).
Proof.
  unfold DG.getFormDiscGalerkin. intro H.
  destruct (negb _); [discriminate|].
  destruct (negb _); [discriminate|].
  destruct (negb _); [discriminate|].
  cbv zeta in H.
  destruct (Nat.eqb_spec (DG.space_dimension L) 0) as [|Hns]; [discriminate|].
  destruct (DG.tabulate L (DG.get_points Q)) as [bv0 bdv0]. cbn [fst snd].
  destruct (DG.geometric_perm L) as [perm|] eqn:Eperm; cbn [Py.bind] in H;
    [|discriminate].
  destruct (DG.take_rows bv0 perm) as [bv|] eqn:Ebv; cbn [Py.bind] in H;
    [|discriminate].
  destruct (DG.take_rows bdv0 perm) as [bdv|] eqn:Ebdv; cbn [Py.bind] in H;
    [|discriminate].
  do 3 step_bind H.
  destruct (extract_terms (DG.form F)) as [time remainder]. cbn [fst snd].
  destruct (DG.stage_loop (strip_dt_form time) _ _ _ _ _ _ _ _) as [F1|] eqn:Es1;
    cbn [Py.bind] in H; [|discriminate].
  destruct (DG.stage_loop remainder _ _ _ _ _ _ _ _) as [F3|] eqn:Es3;
    cbn [Py.bind] in H; [|discriminate].
  injection H as <- <-.
  pose proof (take_rows_nth _ _ _ Ebv) as [Hl1 _].
  apply take_rows_permuted in Ebv, Ebdv. subst bv bdv.
  exists perm. split; [reflexivity|]. split; [lia|]. split; [reflexivity|].
  split.
  - intro Hq.
    destruct (DG.space_dimension L) as [|k] eqn:Ek; [lia|].
    cbn [seq] in Es3.
    rewrite <- Hl1.
    apply (stage_loop_stage_count _ _ _ _ _ _ _ _ _ _ _ Hq Es3).
  - rewrite (stage_loop_exact _ _ _ _ _ _ _ _ _ _ Es3).
    rewrite summands_form_add by reflexivity.
    rewrite (stage_loop_exact _ _ _ _ _ _ _ _ _ _ Es1).
    simpl. unfold DG.stage_terms. now rewrite <- app_assoc.
Qed.

(** C3.  The form that [getFormDiscGalerkin] returns is a sum in which
    exactly one summand is the jump term: the time-derivative part with [u0]
    replaced by [u_np[0] - u0] and [v] by [v_np[0]]; it comes after the
    [num_stages * len(qpts)] weak time-derivative terms and before as many
    remainder terms.  The stages are ordered by the degrees of freedom of
    the element inside the wrapper: those of the left vertex, then those of
    the interior, then those of the right vertex; row [i] of both
    tabulations in every term is row [perm[i]] of what the element
    tabulates, so that stage 0, the one of the jump term, is the degree of
    freedom at the left end when the element has one there. *)
Theorem form_has_one_jump_term (F : DG.SemiDiscreteForm) (L : DG.FiatElement)
  (Q : DG.QuadratureRule) (u : Function) (Fnew : DG.ufl_form) (UU : list dat) :
  DG.getFormDiscGalerkin extract_terms strip_dt_form linalg_solve_matrix F L Q u
    = Ok (Fnew, UU) ->
  exists (e : DG.FiatElement) (perm : list nat),
    (L = DG.DiscontinuousElement e \/
     (L = e /\ exists d, e = DG.CiarletElement d)) /\
    perm = DG.dofs_of_entity e 0 0 ++ DG.dofs_of_entity e 1 0
             ++ DG.dofs_of_entity e 0 1 /\
    (forall d rest,
       DG.dofs_of_entity e 0 0 = d :: rest ->
       nth_error perm 0 = Some d /\
       nth 0 (DG.permuted_rows (fst (DG.tabulate L (DG.get_points Q))) perm) []
         = nth d (fst (DG.tabulate L (DG.get_points Q))) []) /\
    (concat (DG.get_points Q) <> [] -> length perm = DG.space_dimension L) /\
    DG.summands Fnew =
      DG.stage_terms (strip_dt_form (fst (extract_terms (DG.form F))))
        (concat (DG.get_points Q)) (DG.get_weights Q)
        (DG.permuted_rows (fst (DG.tabulate L (DG.get_points Q))) perm)
        (DG.permuted_rows (snd (DG.tabulate L (DG.get_points Q))) perm)
        (fun uq => DG.E_mul (DG.E_div (DG.E_real 1) DG.E_dt) uq)
        (DG.space_dimension L)
      ++ DG.jump_term (strip_dt_form (fst (extract_terms (DG.form F))))
      :: DG.stage_terms (snd (extract_terms (DG.form F)))
           (concat (DG.get_points Q)) (DG.get_weights Q)
           (DG.permuted_rows (fst (DG.tabulate L (DG.get_points Q))) perm)
           (DG.permuted_rows (fst (DG.tabulate L (DG.get_points Q))) perm)
           (fun uq => uq) (DG.space_dimension L) /\
    (forall m,
       nth_error (DG.summands Fnew) m =
         Some (DG.jump_term (strip_dt_form (fst (extract_terms (DG.form F))))) <->
       m = (DG.space_dimension L * length (concat (DG.get_points Q)))%nat) /\
    DG.jump_term (strip_dt_form (fst (extract_terms (DG.form F)))) =
      DG.F_replace (strip_dt_form (fst (extract_terms (DG.form F))))
        [(DG.E_u0, DG.E_sub (DG.E_u_np 0) DG.E_u0); (DG.E_v, DG.E_v_np 0)].
Proof.
  intro H.
  destruct (form_builder_terms _ _ _ _ _ _ H)
    as (perm & Hperm & _ & _ & Hlen & Hs).
  destruct (geometric_perm_sorted _ _ Hperm) as (e & He & Hp).
  exists e, perm. split; [exact He|]. split; [exact Hp|].
  split; [|split; [exact Hlen|split; [exact Hs|split; [|reflexivity]]]].
  - intros d rest Hd. rewrite Hp. unfold DG.left_interior_right.
    rewrite Hd. split; reflexivity.
  - intro m. rewrite Hs.
    rewrite <- (stage_terms_length
                  (strip_dt_form (fst (extract_terms (DG.form F))))
                  (concat (DG.get_points Q)) (DG.get_weights Q)
                  (DG.permuted_rows (fst (DG.tabulate L (DG.get_points Q))) perm)
                  (DG.permuted_rows (snd (DG.tabulate L (DG.get_points Q))) perm)
                  (fun uq => DG.E_mul (DG.E_div (DG.E_real 1) DG.E_dt) uq)
                  (DG.space_dimension L)).
    apply single_occurrence; try apply stage_terms_quadrature. intros [].
Qed.

End FormProperties.

Lemma form_has_one_jump_term_witness :
  exists Fnew UU,
    DG.getFormDiscGalerkin Examples.split_sum Examples.keep_form
      Examples.diag_solve_matrix Examples.decay_form
      (DG.DiscontinuousElement (DG.CiarletElement Examples.P3))
      (Examples.midpoint_rule 2) [[1]] = Ok (Fnew, UU) /\
    DG.summands Fnew =
      DG.stage_terms (DG.F_atom "inner(Dt(u), v)*dx")
        (concat (DG.get_points (Examples.midpoint_rule 2)))
        (DG.get_weights (Examples.midpoint_rule 2))
        (DG.permuted_rows
           (fst (DG.tabulation Examples.P3
                   (DG.get_points (Examples.midpoint_rule 2))))
           [0; 2; 3; 1]%nat)
        (DG.permuted_rows
           (snd (DG.tabulation Examples.P3
                   (DG.get_points (Examples.midpoint_rule 2))))
           [0; 2; 3; 1]%nat)
        (fun uq => DG.E_mul (DG.E_div (DG.E_real 1) DG.E_dt) uq) 4
      ++ DG.jump_term (DG.F_atom "inner(Dt(u), v)*dx")
      :: DG.stage_terms (DG.F_atom "inner(u, v)*dx")
           (concat (DG.get_points (Examples.midpoint_rule 2)))
           (DG.get_weights (Examples.midpoint_rule 2))
           (DG.permuted_rows
              (fst (DG.tabulation Examples.P3
                      (DG.get_points (Examples.midpoint_rule 2))))
              [0; 2; 3; 1]%nat)
           (DG.permuted_rows
              (fst (DG.tabulation Examples.P3
                      (DG.get_points (Examples.midpoint_rule 2))))
              [0; 2; 3; 1]%nat)
           (fun uq => uq) 4 /\
    (forall m,
       nth_error (DG.summands Fnew) m =
         Some (DG.jump_term (DG.F_atom "inner(Dt(u), v)*dx")) <-> m = 8%nat).
Proof.
  eexists. eexists. split; [reflexivity|].
  destruct (form_has_one_jump_term Examples.split_sum Examples.keep_form
              Examples.diag_solve_matrix Examples.decay_form
              (DG.DiscontinuousElement (DG.CiarletElement Examples.P3))
              (Examples.midpoint_rule 2) [[1]] _ _ eq_refl)
    as (e & perm & He & Hp & _ & _ & Hs & Hm & _).
  assert (Ee : e = DG.CiarletElement Examples.P3).
  { destruct He as [He|[He [d Hd]]].
    - now injection He as <-.
    - rewrite Hd in He. discriminate He. }
  subst e. split; [|exact Hm].
  rewrite Hp in Hs. exact Hs.
Defined.

(** For the element of order 0 the ordering has a single entry, the
    degree of freedom of the cell: it has none at the left end. *)
Example geometric_perm_P0 :
  DG.geometric_perm (DG.CiarletElement Examples.P0) = Ok [0%nat] /\
  DG.dofs_of_entity (DG.CiarletElement Examples.P0) 0 0 = [].
Proof. split; reflexivity. Qed.

(** The basis of [P2] is nodal: at an end of the interval only the basis
    function of that end is not zero. *)
Example P2_nodal :
  fst (DG.tabulation Examples.P2 [[0]; [1]; [1 / 2]]) =
    [[(1 - 0) * (1 - 2 * 0); (1 - 1) * (1 - 2 * 1);
      (1 - 1 / 2) * (1 - 2 * (1 / 2))];
     [0 * (2 * 0 - 1); 1 * (2 * 1 - 1); 1 / 2 * (2 * (1 / 2) - 1)];
     [4 * 0 * (1 - 0); 4 * 1 * (1 - 1); 4 * (1 / 2) * (1 - 1 / 2)]] /\
  (1 - 0) * (1 - 2 * 0) = 1 /\ (1 - 1) * (1 - 2 * 1) = 0 /\
  0 * (2 * 0 - 1) = 0 /\ 1 * (2 * 1 - 1) = 1 /\
  4 * 0 * (1 - 0) = 0 /\ 4 * 1 * (1 - 1) = 0.
Proof. split; [reflexivity|]. repeat split; lra. Qed.

(** ** Construction of the DG stepper *)

Section Construction.

Variable fiat : DG.FIAT.
Variable extract_terms : DG.ufl_form -> DG.ufl_form * DG.ufl_form.
Variable strip_dt_form : DG.ufl_form -> DG.ufl_form.
Variable linalg_solve_matrix : matrix -> matrix -> result matrix.

Lemma init_passes_check (F : DG.SemiDiscreteForm) (order0 : Z) (t0 dt0 : R)
  (u : Function) (basis_type0 : option string)
  (quadrature0 : option DG.QuadratureRule) (solver0 : DG.NLVS) (e : exn) :
  (0 <= order0)%Z ->
  DG.quadrature_check order0 (DG.chosen_quadrature fiat order0 quadrature0) = true ->
  DG.__init__ fiat extract_terms strip_dt_form linalg_solve_matrix F order0
    t0 dt0 u basis_type0 quadrature0 solver0 = Raise e ->
  DG.getFormDiscGalerkin extract_terms strip_dt_form linalg_solve_matrix F
    (DG.time_element fiat order0 basis_type0)
    (DG.chosen_quadrature fiat order0 quadrature0) u = Raise e.
Proof.
  intros Hord Hchk. unfold DG.__init__.
  replace (0 <=? order0)%Z with true by (symmetry; apply Z.leb_le; lia).
  rewrite Hchk. cbn [negb].
  destruct (DG.getFormDiscGalerkin _ _ _ _ _ _ _) as [[f uu]|e'];
    cbn [Py.bind]; [discriminate|].
  intro H. now injection H as ->.
Qed.

(** C7 (amended).  The constructor counts the points of the rule: with fewer
    than [order+1] of them it raises [AssertionError] before the form is
    built, whatever else the rule is; with [order+1] or more the check
    passes and only the form builder can still raise.  When no rule is given
    and [make_quadrature(line, order+1)] has [order+1] points, the check
    passes. *)
Theorem quadrature_check_counts_points (F : DG.SemiDiscreteForm) (order0 : Z)
  (t0 dt0 : R) (u : Function) (basis_type0 : option string) (solver0 : DG.NLVS) :
  (forall Q,
     (Z.of_nat (DG.np_size (DG.get_points Q)) < order0 + 1)%Z ->
     DG.__init__ fiat extract_terms strip_dt_form linalg_solve_matrix F order0
       t0 dt0 u basis_type0 (Some Q) solver0 = Raise AssertionError)
  /\
  (forall Q e,
     (0 <= order0)%Z ->
     (order0 + 1 <= Z.of_nat (DG.np_size (DG.get_points Q)))%Z ->
     DG.__init__ fiat extract_terms strip_dt_form linalg_solve_matrix F order0
       t0 dt0 u basis_type0 (Some Q) solver0 = Raise e ->
     DG.getFormDiscGalerkin extract_terms strip_dt_form linalg_solve_matrix F
       (DG.time_element fiat order0 basis_type0) Q u = Raise e)
  /\
  ((0 <= order0)%Z ->
   DG.np_size (DG.get_points (DG.make_quadrature fiat DG.ufc_line (order0 + 1)))
     = Z.to_nat (order0 + 1) ->
   DG.quadrature_check order0 (DG.chosen_quadrature fiat order0 None) = true /\
   forall e,
     DG.__init__ fiat extract_terms strip_dt_form linalg_solve_matrix F order0
       t0 dt0 u basis_type0 None solver0 = Raise e ->
     DG.getFormDiscGalerkin extract_terms strip_dt_form linalg_solve_matrix F
       (DG.time_element fiat order0 basis_type0)
       (DG.make_quadrature fiat DG.ufc_line (order0 + 1)) u = Raise e).
Proof.
  split; [|split].
  - intros Q Hfew. unfold DG.__init__.
    destruct (0 <=? order0)%Z; [|reflexivity]. cbn [negb].
    unfold DG.quadrature_check, DG.chosen_quadrature.
    replace (order0 + 1 <=? Z.of_nat (DG.np_size (DG.get_points Q)))%Z with false
      by (symmetry; apply Z.leb_gt; lia).
    reflexivity.
  - intros Q e Hord Hmany H.
    apply (init_passes_check F order0 t0 dt0 u basis_type0 (Some Q) solver0 e Hord);
      [|exact H].
    unfold DG.quadrature_check, DG.chosen_quadrature. apply Z.leb_le. lia.
  - intros Hord Hpts.
    assert (Hchk : DG.quadrature_check order0 (DG.chosen_quadrature fiat order0 None)
                   = true).
    { unfold DG.quadrature_check, DG.chosen_quadrature. rewrite Hpts.
      apply Z.leb_le. lia. }
    split; [exact Hchk|]. intros e H.
    apply (init_passes_check F order0 t0 dt0 u basis_type0 None solver0 e Hord Hchk H).
Qed.

Lemma init_counters (F : DG.SemiDiscreteForm) (order0 : Z) (t0 dt0 : R)
  (u : Function) (basis_type0 : option string)
  (quadrature0 : option DG.QuadratureRule) (solver0 : DG.NLVS) (st : DG.Stepper) :
  DG.__init__ fiat extract_terms strip_dt_form linalg_solve_matrix F order0
    t0 dt0 u basis_type0 quadrature0 solver0 = Ok st ->
  DG.solver_stats st = (0, 0, 0)%Z.
Proof.
  unfold DG.__init__.
  destruct (negb _); [discriminate|]. destruct (negb _); [discriminate|].
  destruct (DG.getFormDiscGalerkin _ _ _ _ _ _ _) as [[f uu]|e']; [|discriminate].
  intro H. now injection H as <-.
Qed.

End Construction.

(** C7, as stated, fails: the left-endpoint rule has one point and is exact
    for constants only, and the stepper of order 0 is built with it. *)
Lemma inaccurate_rule_accepted :
  ~ (forall fiat extract_terms strip_dt_form linalg_solve_matrix F order0 t0 dt0 u
            basis_type0 Q solver0,
       ~ DG.exact_to_degree Q (Z.to_nat (order0 + 1)) ->
       DG.__init__ fiat extract_terms strip_dt_form linalg_solve_matrix F order0
         t0 dt0 u basis_type0 (Some Q) solver0 = Raise AssertionError).
Proof.
  intro H.
  specialize (H Examples.small_fiat Examples.split_sum Examples.keep_form
                Examples.diag_solve_matrix Examples.decay_form 0%Z 0 0.1 [[1]]
                None Examples.left_endpoint_rule Examples.dg_decay_solver).
  assert (Hne : ~ DG.exact_to_degree Examples.left_endpoint_rule (Z.to_nat (0 + 1))).
  { intro Hex. specialize (Hex 1%nat (le_n 1)). simpl in Hex. lra. }
  specialize (H Hne). discriminate H.
Qed.

(** ** The update of the DG stepper *)

Lemma concat_repeat_length {X : Type} (l : list X) (n : nat) :
  length (concat (repeat l n)) = (n * length l)%nat.
Proof.
  induction n as [|n IH]; simpl; [reflexivity|].
  now rewrite length_app, IH.
Qed.

Section LastStage.

Variable fiat : DG.FIAT.
Variable extract_terms : DG.ufl_form -> DG.ufl_form * DG.ufl_form.
Variable strip_dt_form : DG.ufl_form -> DG.ufl_form.
Variable linalg_solve_matrix : matrix -> matrix -> result matrix.

(** What [__init__] has done when it returns. *)
Lemma init_inv (F : DG.SemiDiscreteForm) (order0 : Z) (t0 dt0 : R)
  (u : Function) (basis_type0 : option string)
  (quadrature0 : option DG.QuadratureRule) (solver0 : DG.NLVS) (st : DG.Stepper) :
  DG.__init__ fiat extract_terms strip_dt_form linalg_solve_matrix F order0
    t0 dt0 u basis_type0 quadrature0 solver0 = Ok st ->
  (0 <= order0)%Z /\
  DG.quadrature_check order0 (DG.chosen_quadrature fiat order0 quadrature0) = true /\
  DG.getFormDiscGalerkin extract_terms strip_dt_form linalg_solve_matrix F
    (DG.time_element fiat order0 basis_type0)
    (DG.chosen_quadrature fiat order0 quadrature0) u = Ok (DG.bigF st, DG.UU st) /\
  DG.order st = order0 /\ DG.u0 st = u /\ DG.num_fields st = length u /\
  DG.el st = DG.time_element fiat order0 basis_type0 /\
  DG.quadrature st = DG.chosen_quadrature fiat order0 quadrature0 /\
  DG.solver st = solver0.
Proof.
  unfold DG.__init__.
  destruct (Z.leb_spec 0 order0) as [Hord|]; [|discriminate]. cbn [negb].
  destruct (DG.quadrature_check _ _) eqn:Hchk; [|discriminate]. cbn [negb].
  destruct (DG.getFormDiscGalerkin _ _ _ _ _ _ _) as [[f uu]|e] eqn:E;
    [|discriminate]. cbn [Py.bind].
  intro H. injection H as <-. simpl. now repeat split.
Qed.

(** C9.  Take a stepper that [__init__] has built, for an element that has
    [order+1] degrees of freedom as the elements of degree [order] on the
    interval have, and any call of [advance] on it that returns, after any
    number of earlier ones.  Then [u0] is a copy of one block of the stage
    unknown that the solver left: field [i] is the component at flat index
    [num_fields*order + i], no weights and no other stage come in.  That
    block is the one of stage [num_stages - 1], the last of the stages; it
    is the end of the stage unknown when the solver has kept its shape.  The
    stages are ordered by the degrees of freedom of the element inside the
    wrapper, left vertex, interior, right vertex, and the form that is
    solved tabulates them in this order; so the last stage is the degree of
    freedom of the right end when the element has one there. *)
Theorem dg_advance_takes_last_stage (F : DG.SemiDiscreteForm) (order0 : Z)
  (t0 dt0 : R) (u : Function) (basis_type0 : option string)
  (quadrature0 : option DG.QuadratureRule) (solver0 : DG.NLVS)
  (st0 : DG.Stepper) (n : nat) (st st' : DG.Stepper) :
  DG.__init__ fiat extract_terms strip_dt_form linalg_solve_matrix F order0
    t0 dt0 u basis_type0 quadrature0 solver0 = Ok st0 ->
  DG.space_dimension (DG.time_element fiat order0 basis_type0)
    = Z.to_nat (order0 + 1) ->
  DG.advance_n n st0 = (Ok tt, st) ->
  DG.advance st = (Ok tt, st') ->
  DG.UU st' = DG.stage_values (DG.solve solver0 (DG.stage_problem st)) /\
  DG.num_fields st = length u /\
  length (DG.u0 st') = length u /\
  (forall i, (i < length u)%nat ->
     nth_error (DG.u0 st') i =
       nth_error (DG.UU st') (DG.num_fields st * Z.to_nat (DG.order st) + i)) /\
  Z.to_nat (DG.order st) = (DG.space_dimension (DG.el st) - 1)%nat /\
  length (DG.UU st0) = (DG.space_dimension (DG.el st) * length u)%nat /\
  DG.u0 st' =
    firstn (length u)
      (skipn (length u * (DG.space_dimension (DG.el st) - 1)) (DG.UU st')) /\
  (length (DG.UU st') = length (DG.UU st0) ->
   DG.u0 st' =
     skipn (length u * (DG.space_dimension (DG.el st) - 1)) (DG.UU st')) /\
  exists (e : DG.FiatElement) (perm : list nat),
    (DG.el st = DG.DiscontinuousElement e \/
     (DG.el st = e /\ exists d, e = DG.CiarletElement d)) /\
    perm = DG.dofs_of_entity e 0 0 ++ DG.dofs_of_entity e 1 0
             ++ DG.dofs_of_entity e 0 1 /\
    length perm = DG.space_dimension (DG.el st) /\
    (DG.dofs_of_entity e 0 1 <> [] ->
     nth_error perm (DG.space_dimension (DG.el st) - 1) =
       Some (last (DG.dofs_of_entity e 0 1) 0%nat)) /\
    DG.summands (DG.p_form (DG.stage_problem st)) =
      DG.stage_terms (strip_dt_form (fst (extract_terms (DG.form F))))
        (concat (DG.get_points (DG.quadrature st)))
        (DG.get_weights (DG.quadrature st))
        (DG.permuted_rows
           (fst (DG.tabulate (DG.el st) (DG.get_points (DG.quadrature st)))) perm)
        (DG.permuted_rows
           (snd (DG.tabulate (DG.el st) (DG.get_points (DG.quadrature st)))) perm)
        (fun uq => DG.E_mul (DG.E_div (DG.E_real 1) DG.E_dt) uq)
        (DG.space_dimension (DG.el st))
      ++ DG.jump_term (strip_dt_form (fst (extract_terms (DG.form F))))
      :: DG.stage_terms (snd (extract_terms (DG.form F)))
           (concat (DG.get_points (DG.quadrature st)))
           (DG.get_weights (DG.quadrature st))
           (DG.permuted_rows
              (fst (DG.tabulate (DG.el st) (DG.get_points (DG.quadrature st))))
              perm)
           (DG.permuted_rows
              (fst (DG.tabulate (DG.el st) (DG.get_points (DG.quadrature st))))
              perm)
           (fun uq => uq) (DG.space_dimension (DG.el st)).
Proof.
  intros Hinit Hdim Hn Hadv.
  destruct (init_inv _ _ _ _ _ _ _ _ _ Hinit)
    as (Hord & Hchk & Hform & Ho0 & Hu0 & Hnf0 & Hel0 & Hq0 & Hs0).
  destruct (advance_n_keeps _ _ _ Hn) as (Ho & Hnf & Hel & Hq & HF & Hs & Hlen).
  rewrite Ho0 in Ho. rewrite Hnf0 in Hnf. rewrite Hel0 in Hel.
  rewrite Hq0 in Hq. rewrite Hs0 in Hs. rewrite Hu0 in Hlen.
  assert (Hns : DG.space_dimension (DG.el st) = (Z.to_nat order0 + 1)%nat)
    by (rewrite Hel, Hdim; lia).
  unfold DG.advance in Hadv. rewrite Hs in Hadv.
  destruct (DG.status (DG.solve solver0 (DG.stage_problem st))) as [[]|e];
    [|discriminate].
  destruct (DG.assign_fields _ _ _ _ _) as [r u'] eqn:E.
  injection Hadv as -> <-. cbn [DG.UU DG.u0].
  rewrite Ho, Hnf in E.
  destruct (assign_fields_block _ _ _ _ _ Hord E) as (Hl & Hnth & Hblock).
  rewrite Hlen in Hl, Hnth, Hblock.
  destruct (form_builder_terms _ _ _ _ _ _ _ _ _ Hform)
    as (perm & Hperm & Hpos & HUU0 & Hplen & Hsum).
  destruct (geometric_perm_sorted _ _ Hperm) as (e & He & Hp).
  assert (Hpts : concat (DG.get_points (DG.chosen_quadrature fiat order0 quadrature0))
                 <> []).
  { unfold DG.quadrature_check, DG.np_size in Hchk. apply Z.leb_le in Hchk.
    intro Hnil. rewrite Hnil in Hchk. simpl in Hchk. lia. }
  specialize (Hplen Hpts).
  assert (HUU : length (DG.UU st0) = (DG.space_dimension (DG.el st) * length u)%nat).
  { rewrite HUU0, concat_repeat_length, length_map. now rewrite Hel. }
  assert (Hk : (DG.space_dimension (DG.el st) - 1)%nat = Z.to_nat order0) by lia.
  rewrite Hk, Ho, Hnf.
  split; [reflexivity|]. split; [reflexivity|]. split; [exact Hl|].
  split; [exact Hnth|]. split; [reflexivity|].
  split; [exact HUU|]. split; [exact Hblock|]. split.
  - intro HUU'. rewrite Hblock. apply firstn_all2.
    rewrite length_skipn, HUU', HUU, Hns. nia.
  - exists e, perm. split; [rewrite Hel; exact He|].
    split; [exact Hp|]. split; [now rewrite Hel|].
    split.
    + intro Hright.
      replace (Z.to_nat order0) with (length perm - 1)%nat
        by (rewrite Hplen, Hdim; lia).
      rewrite (nth_error_last perm 0%nat).
      * f_equal. rewrite Hp. unfold DG.left_interior_right.
        rewrite app_assoc. now apply last_app_nonempty.
      * intro Hnil. rewrite Hnil in Hplen. simpl in Hplen. lia.
    + cbn [DG.stage_problem DG.p_form]. rewrite HF, Hq, Hel. exact Hsum.
Qed.

End LastStage.

Lemma dg_advance_takes_last_stage_witness :
  DG.__init__ Examples.small_fiat Examples.split_sum Examples.keep_form
    Examples.diag_solve_matrix Examples.decay_form 2 0 0.1 [[1]] None None
    Examples.three_stage_solver = Ok Examples.dg2_stepper /\
  DG.advance_n 1 Examples.dg2_stepper = (Ok tt, Examples.dg2_after_one_step) /\
  fst (DG.advance Examples.dg2_after_one_step) = Ok tt /\
  DG.el Examples.dg2_after_one_step =
    DG.DiscontinuousElement (DG.CiarletElement Examples.P2) /\
  DG.UU (snd (DG.advance Examples.dg2_after_one_step)) = [[10]; [20]; [30]] /\
  DG.u0 (snd (DG.advance Examples.dg2_after_one_step)) = [[30]] /\
  DG.u0 (snd (DG.advance Examples.dg2_after_one_step)) =
    skipn (1 * (3 - 1)) (DG.UU (snd (DG.advance Examples.dg2_after_one_step))) /\
  exists perm,
    perm = [0; 2; 1]%nat /\
    nth_error perm (3 - 1) = Some 1%nat /\
    DG.summands (DG.p_form (DG.stage_problem Examples.dg2_after_one_step)) =
      DG.stage_terms (DG.F_atom "inner(Dt(u), v)*dx")
        (concat (DG.get_points (Examples.midpoint_rule 3)))
        (DG.get_weights (Examples.midpoint_rule 3))
        (DG.permuted_rows
           (fst (DG.tabulation Examples.P2
                   (DG.get_points (Examples.midpoint_rule 3)))) perm)
        (DG.permuted_rows
           (snd (DG.tabulation Examples.P2
                   (DG.get_points (Examples.midpoint_rule 3)))) perm)
        (fun uq => DG.E_mul (DG.E_div (DG.E_real 1) DG.E_dt) uq) 3
      ++ DG.jump_term (DG.F_atom "inner(Dt(u), v)*dx")
      :: DG.stage_terms (DG.F_atom "inner(u, v)*dx")
           (concat (DG.get_points (Examples.midpoint_rule 3)))
           (DG.get_weights (Examples.midpoint_rule 3))
           (DG.permuted_rows
              (fst (DG.tabulation Examples.P2
                      (DG.get_points (Examples.midpoint_rule 3)))) perm)
           (DG.permuted_rows
              (fst (DG.tabulation Examples.P2
                      (DG.get_points (Examples.midpoint_rule 3)))) perm)
           (fun uq => uq) 3.
Proof.
  split; [reflexivity|]. split; [reflexivity|]. split; [reflexivity|].
  split; [reflexivity|]. split; [reflexivity|]. split; [reflexivity|].
  destruct (dg_advance_takes_last_stage Examples.small_fiat Examples.split_sum
              Examples.keep_form Examples.diag_solve_matrix Examples.decay_form
              2 0 0.1 [[1]] None None Examples.three_stage_solver
              Examples.dg2_stepper 1 Examples.dg2_after_one_step
              (snd (DG.advance Examples.dg2_after_one_step))
              eq_refl eq_refl eq_refl eq_refl)
    as (_ & _ & _ & _ & _ & _ & _ & Hend & e & perm & He & Hp & _ & Hlast & Hs).
  split; [exact (Hend eq_refl)|].
  assert (Ee : e = DG.CiarletElement Examples.P2).
  { destruct He as [He|[He [d Hd]]].
    - now injection He as <-.
    - rewrite Hd in He. discriminate He. }
  subst e. exists perm. split; [exact Hp|].
  split; [apply Hlast; discriminate|exact Hs].
Defined.

(** ** [solver_stats] *)

Lemma advance_n_steps (n : nat) :
  forall st st',
    DG.advance_n n st = (Ok tt, st') ->
    DG.num_steps st' = (DG.num_steps st + Z.of_nat n)%Z.
Proof.
  induction n as [|n IH]; intros st st' H; simpl in H.
  - injection H as <-. lia.
  - destruct (DG.advance st) as [[[]|e] st1] eqn:E; [|discriminate].
    rewrite (IH _ _ H).
    unfold DG.advance in E.
    destruct (DG.status _); [|discriminate].
    destruct (DG.assign_fields _ _ _ _ _) as [r u'].
    injection E as _ <-. simpl. lia.
Qed.

(** C8 (amended).  Of the three stepper classes only
    [DiscontinuousGalerkinTimeStepper] defines [solver_stats]; on the two
    Runge-Kutta steppers the call is an [AttributeError].  On the DG stepper
    it returns the three counters, which are 0 after construction, and after
    [n] calls of [advance] that return the step counter has grown by [n]. *)
Theorem solver_stats_of_dg_stepper :
  (forall st,
     API.call_solver_stats (API.OfDiscontinuousGalerkinTimeStepper st) =
       Ok (DG.num_steps st, DG.num_nonlinear_iterations st,
           DG.num_linear_iterations st))
  /\
  (forall n st st',
     DG.advance_n n st = (Ok tt, st') ->
     DG.num_steps st' = (DG.num_steps st + Z.of_nat n)%Z)
  /\
  (forall fiat extract_terms strip_dt_form linalg_solve_matrix F order0 t0 dt0 u
          basis_type0 quadrature0 solver0 st n st',
     DG.__init__ fiat extract_terms strip_dt_form linalg_solve_matrix F order0
       t0 dt0 u basis_type0 quadrature0 solver0 = Ok st ->
     DG.advance_n n st = (Ok tt, st') ->
     fst (fst (DG.solver_stats st')) = Z.of_nat n)
  /\
  (forall st,
     API.call_solver_stats (API.OfTimeStepper st) =
       Raise (AttributeError "solver_stats"))
  /\
  (forall st,
     API.call_solver_stats (API.OfAdaptiveTimeStepper st) =
       Raise (AttributeError "solver_stats"))
  /\
  (forall fiat extract_terms strip_dt_form linalg_solve_matrix F order0 t0 dt0 u
          basis_type0 quadrature0 solver0 st,
     DG.__init__ fiat extract_terms strip_dt_form linalg_solve_matrix F order0
       t0 dt0 u basis_type0 quadrature0 solver0 = Ok st ->
     DG.solver_stats st = (0, 0, 0)%Z).
Proof.
  split; [reflexivity|]. split; [intros n st st'; apply advance_n_steps|].
  split; [|split; [reflexivity|split; [reflexivity|]]].
  - intros fiat ext strip lsm F order0 t0 dt0 u bt q0 solver0 st n st' Hinit Hadv.
    apply init_counters in Hinit. apply advance_n_steps in Hadv.
    unfold DG.solver_stats in *. simpl. injection Hinit as H0 _ _. lia.
  - intros fiat ext strip lsm F order0 t0 dt0 u bt q0 solver0 st Hinit.
    now apply init_counters in Hinit.
Qed.

(** C8, as stated, fails: a [TimeStepper] has no [solver_stats]. *)
Lemma runge_kutta_stepper_has_no_solver_stats :
  ~ (forall s : API.stepper, exists stats, API.call_solver_stats s = Ok stats).
Proof.
  intro H. destruct (H (API.OfTimeStepper Examples.euler_stepper)) as [stats Hs].
  discriminate Hs.
Qed.

(** ** Witnesses on the example steppers *)




Lemma pair_run_minimum_step :
  Adaptive.advance Examples.diag_solve Examples.abs_norm 1
    (Examples.pair_stepper (1 / 4) 1 10) =
  (Adaptive.Raises Adaptive.AtMinimumStep
     (RuntimeError Adaptive.minimum_step_message),
   snd (Adaptive.after_estimate Examples.abs_norm
          (Examples.pair_stepper (1 / 4) 1 10))).
Proof.
  simpl. rewrite attempt_unfold, pair_after_solve, pair_after_estimate.
  cbn [fst snd].
  replace (Rabs (1 / 4)) with (1 / 4) by (symmetry; apply Rabs_right; lra).
  simpl Adaptive.tol. simpl order. simpl dt. simpl Adaptive.dt_min.
  rewrite clamped_scale_factor_order_2 by lra. cbv zeta.
  destruct (Rge_dec (1 / 4) 1); [lra|].
  destruct (Rle_dec _ _); [reflexivity|lra].
Qed.

Lemma u0_written_only_on_accept_witness :
  u0 (Adaptive.base
        (snd (Adaptive.after_estimate Examples.abs_norm
                (Examples.pair_stepper (1 / 4) 1 10)))) =
  u0 (Adaptive.base (Examples.pair_stepper (1 / 4) 1 10)).
Proof.
  apply (proj2 (proj2 (proj2 (proj2
           (u0_written_only_on_accept Examples.diag_solve Examples.abs_norm)))
           1%nat (Examples.pair_stepper (1 / 4) 1 10) _ _
           pair_run_minimum_step)).
Defined.

Lemma quadrature_check_counts_points_witness :
  DG.__init__ Examples.small_fiat Examples.split_sum Examples.keep_form
    Examples.diag_solve_matrix Examples.decay_form 1 0 0.1 [[1]] None
    (Some (Examples.midpoint_rule 1)) Examples.dg_decay_solver
    = Raise AssertionError
  /\ DG.quadrature_check 1 (DG.chosen_quadrature Examples.small_fiat 1 None) = true.
Proof.
  split.
  - apply (proj1 (quadrature_check_counts_points Examples.small_fiat
                    Examples.split_sum Examples.keep_form
                    Examples.diag_solve_matrix Examples.decay_form 1 0 0.1 [[1]]
                    None Examples.dg_decay_solver)).
    simpl. lia.
  - apply (proj2 (proj2 (quadrature_check_counts_points Examples.small_fiat
                    Examples.split_sum Examples.keep_form
                    Examples.diag_solve_matrix Examples.decay_form 1 0 0.1 [[1]]
                    None Examples.dg_decay_solver))).
    + lia.
    + reflexivity.
Defined.

(** One DG(0) step of [du/dt = -u] from 1 with [dt = 0.1] gives [1/1.1]
    as well. *)
Example dg0_step :
  fst (DG.advance Examples.dg0_stepper) = Ok tt /\
  DG.u0 (snd (DG.advance Examples.dg0_stepper)) = [[1 / (1 + 0.1)]] /\
  1 / (1 + 0.1) = 1 / 1.1 /\
  DG.solver_stats (snd (DG.advance Examples.dg0_stepper)) = (1, 1, 1)%Z.
Proof.
  repeat split. replace (1 + 0.1) with 1.1 by lra. reflexivity.
Qed.

Lemma solver_stats_of_dg_stepper_witness :
  fst (fst (DG.solver_stats (snd (DG.advance_n 3 Examples.dg0_stepper)))) = 3%Z.
Proof.
  apply (proj1 (proj2 solver_stats_of_dg_stepper) 3%nat Examples.dg0_stepper).
  reflexivity.
Defined.

(** * Further properties of the steppers *)

(** ** Shapes *)

Lemma iadd_keeps_length (lhs rhs d : dat) :
  iadd lhs rhs = Ok d -> length d = length lhs.
Proof.
  unfold iadd. destruct (Nat.eqb_spec (length rhs) (length lhs)) as [E|E].
  - intro H. injection H as <-. apply vadd_length. now symmetry.
  - destruct rhs as [|x [|y rhs]]; try discriminate.
    intro H. injection H as <-. apply length_map.
Qed.

Lemma accumulate_fields_keeps_shape (dtc : R) (weight : nat -> result R)
  (stage_ks : list dat) (base : nat) :
  forall target i,
    map (@length R)
      (snd (accumulate_fields dtc weight stage_ks base i target)) =
    map (@length R) target.
Proof.
  induction target as [|d rest IH]; intro i; simpl; [reflexivity|].
  destruct (w <- weight i ;; k <- getitem stage_ks (base + i) ;;
            iadd d (vscale (dtc * w) k)) as [d'|e] eqn:E; [|reflexivity].
  specialize (IH (S i)).
  destruct (accumulate_fields dtc weight stage_ks base (S i) rest) as [r rest'].
  simpl in *. rewrite IH. f_equal.
  destruct (weight i) as [w|]; cbn [Py.bind] in E; [|discriminate].
  destruct (getitem stage_ks (base + i)) as [k|]; cbn [Py.bind] in E;
    [|discriminate].
  now apply iadd_keeps_length in E.
Qed.

Lemma accumulate_stages_keeps_shape (dtc : R) (weight : nat -> nat -> result R)
  (stage_ks : list dat) (nf : nat) :
  forall stages target,
    map (@length R)
      (snd (accumulate_stages dtc weight stage_ks nf stages target)) =
    map (@length R) target.
Proof.
  induction stages as [|s later IH]; intro target; simpl; [reflexivity|].
  pose proof (accumulate_fields_keeps_shape dtc (weight s) stage_ks (nf * s)
                target 0) as H.
  destruct (accumulate_fields dtc (weight s) stage_ks (nf * s) 0 target)
    as [[[]|e] target']; simpl in *; [|exact H].
  now rewrite IH.
Qed.

Section MoreRungeKutta.

Variable linalg_solve : matrix -> list R -> result (list R).
Variable norm : Function -> R.

(** X1.  [_update] never changes the shape of [u0]: the number of fields
    and the length of each field are the same afterwards, whether it returns
    or raises part of the way; and when [numpy.linalg.solve] raises, the
    stepper is left as it was. *)
Theorem update_keeps_shape (st : TimeStepper) :
  map (@length R) (u0 (snd (_update linalg_solve st))) = map (@length R) (u0 st)
  /\
  (forall e,
     linalg_solve (snd (splitting st (A (butcher_tableau st))))
       (b (butcher_tableau st)) = Raise e ->
     _update linalg_solve st = (Raise e, st)).
Proof.
  unfold _update.
  destruct (splitting st (A (butcher_tableau st))) as [A1 A2]. cbn [snd].
  split.
  - destruct (linalg_solve A2 (b (butcher_tableau st))) as [x|e]; [|reflexivity].
    pose proof (accumulate_stages_keeps_shape (dt st) (fun s _ => getitem x s)
                  (ks st) (num_fields st) (seq 0 (num_stages st)) (u0 st)) as H.
    destruct (accumulate_stages _ _ _ _ _ _) as [r u]. exact H.
  - intros e H. now rewrite H.
Qed.

(** X2.  [_estimate_error] starts from zero: what [error_func] held before
    the call does not matter, only its shape; and the call leaves the shape
    of [error_func] and the base stepper as they were. *)
Theorem estimate_error_ignores_stale_values (st : Adaptive.AdaptiveTimeStepper)
  (stale : Function) :
  map (@length R) stale = map (@length R) (Adaptive.error_func st) ->
  Adaptive._estimate_error norm (Adaptive.set_error_func st stale) =
    Adaptive._estimate_error norm st
  /\
  map (@length R) (Adaptive.error_func (snd (Adaptive._estimate_error norm st)))
    = map (@length R) (Adaptive.error_func st)
  /\
  Adaptive.base (snd (Adaptive._estimate_error norm st)) = Adaptive.base st.
Proof.
  intro Hshape.
  assert (Hz : map (fun e : list R => vzero (length e)) stale =
               map (fun e : list R => vzero (length e)) (Adaptive.error_func st)).
  { rewrite <- (map_map (@length R) vzero stale).
    rewrite <- (map_map (@length R) vzero (Adaptive.error_func st)).
    now rewrite Hshape. }
  split; [|split].
  - unfold Adaptive._estimate_error. simpl. rewrite Hz.
    destruct (accumulate_stages _ _ _ _ _ _) as [[[]|e] f]; reflexivity.
  - unfold Adaptive._estimate_error.
    pose proof (accumulate_stages_keeps_shape (dt (Adaptive.base st))
                  (fun _ i => getitem (Adaptive.delb st) i)
                  (ks (Adaptive.base st)) (num_fields (Adaptive.base st))
                  (seq 0 (num_stages (Adaptive.base st)))
                  (map (fun e : list R => vzero (length e)) (Adaptive.error_func st)))
      as H.
    destruct (accumulate_stages _ _ _ _ _ _) as [[[]|e] f]; simpl in *;
      rewrite H, map_map; apply map_ext; intro a; apply repeat_length.
  - apply (estimate_error_frame norm st).
Qed.

End MoreRungeKutta.

Lemma estimate_error_ignores_stale_values_witness :
  Adaptive._estimate_error Examples.abs_norm
    (Adaptive.set_error_func (Examples.pair_stepper 1 1 0) [[5]]) =
  Adaptive._estimate_error Examples.abs_norm (Examples.pair_stepper 1 1 0).
Proof.
  apply (estimate_error_ignores_stale_values Examples.abs_norm
           (Examples.pair_stepper 1 1 0) [[5]]).
  reflexivity.
Defined.

(** X3.  [AdaptiveTimeStepper.__init__] starts with the assertion that the
    tableau has embedded weights: without [btilde] it raises
    [AssertionError], whatever the other arguments are.  When it returns,
    the tableau has a [btilde] for which [b - btilde] is defined and [delb]
    is that difference (entry by entry when [btilde] is as long as [b]), the
    base stepper uses the splitting [AI], [tol] and [dt_min] are the ones
    given, and [error_func] is zero with the shape of [u0]. *)
Theorem adaptive_init_requires_btilde (bt : ButcherTableau) (t0 dt0 : R)
  (u : Function) (tol0 dtmin : R) (stages0 : list dat)
  (bigBCdata0 : list BCdatum) (solver0 : NLVS) :
  (btilde bt = None ->
   Adaptive.__init__ bt t0 dt0 u tol0 dtmin stages0 bigBCdata0 solver0
     = Raise AssertionError)
  /\
  (forall st,
     Adaptive.__init__ bt t0 dt0 u tol0 dtmin stages0 bigBCdata0 solver0 = Ok st ->
     exists btil,
       btilde bt = Some btil /\
       np_sub (b bt) btil = Ok (Adaptive.delb st) /\
       (length btil = length (b bt) ->
        length (Adaptive.delb st) = length (b bt) /\
        forall s, (s < length (b bt))%nat ->
          nth s (Adaptive.delb st) 0 = nth s (b bt) 0 - nth s btil 0) /\
       splitting (Adaptive.base st) = AI /\
       u0 (Adaptive.base st) = u /\
       Adaptive.tol st = tol0 /\ Adaptive.dt_min st = dtmin /\
       Adaptive.error_func st = map (fun f => vzero (length f)) u).
Proof.
  unfold Adaptive.__init__. split.
  - now intros ->.
  - intros st H. destruct (btilde bt) as [btil|]; [|discriminate].
    cbv zeta in H. destruct (np_sub (b bt) btil) as [d|] eqn:E;
      cbn [Py.bind] in H; [|discriminate].
    injection H as <-. exists btil. simpl.
    split; [reflexivity|]. split; [exact E|].
    split; [|now repeat split].
    intro Hlen. unfold np_sub in E. rewrite <- Hlen, Nat.eqb_refl in E.
    injection E as <-.
    split; [unfold vsub; rewrite zipWith_length; congruence|].
    clear - Hlen. unfold vsub. revert btil Hlen.
    induction (b bt) as [|x l IH]; intros [|y m] Hlen s Hs; simpl in *;
      try lia.
    destruct s as [|s]; [reflexivity|]. apply IH; lia.
Qed.

Lemma adaptive_init_requires_btilde_witness :
  exists st,
    Adaptive.__init__ Examples.embedded_pair 0 1 [[1]] 1 0 [[0]; [0]] []
      (Examples.constant_solver 0) = Ok st /\
    exists btil,
      btilde Examples.embedded_pair = Some btil /\
      np_sub (b Examples.embedded_pair) btil = Ok (Adaptive.delb st).
Proof.
  eexists. split; [reflexivity|].
  destruct (proj2 (adaptive_init_requires_btilde Examples.embedded_pair 0 1
                     [[1]] 1 0 [[0]; [0]] [] (Examples.constant_solver 0))
              _ eq_refl) as (btil & Hb & Hd & _).
  exists btil. now split.
Defined.

(** ** Powers and the clamped scale factor *)

Lemma Rpower_gt_1 (x y : R) : 1 < x -> 0 < y -> 1 < Rpower x y.
Proof.
  intros Hx Hy. unfold Rpower. rewrite <- exp_0. apply exp_increasing.
  assert (0 < ln x) by (rewrite <- ln_1; apply ln_increasing; lra).
  nra.
Qed.

Lemma Rpower_le_base (x z y : R) :
  0 < x -> x <= z -> 0 < y -> Rpower x y <= Rpower z y.
Proof.
  intros Hx Hxz Hy. unfold Rpower.
  destruct (Req_dec_T x z) as [->|Hne]; [lra|].
  left. apply exp_increasing.
  assert (ln x < ln z) by (apply ln_increasing; lra).
  nra.
Qed.

Lemma clamped_scale_factor_value (tol err : R) (order : Z) :
  err <> 0 -> order <> 1%Z -> 0 < tol / err ->
  Adaptive.clamped_scale_factor tol err order =
    Ok (Rmax 0.1 (Rmin 4.0 (0.84 * Rpower (tol / err) (1 / IZR (order - 1))))).
Proof.
  intros He Ho Hr. unfold Adaptive.clamped_scale_factor.
  rewrite (scale_factor_formula _ _ _ He Ho Hr). cbn [Py.bind].
  apply clamp_float.
Qed.

Lemma exponent_positive (order : Z) : (2 <= order)%Z -> 0 < 1 / IZR (order - 1).
Proof. intro H. apply Rdiv_lt_0_compat; [lra|]. apply IZR_lt. lia. Qed.

Lemma abs_norm_nonneg (f : Function) : 0 <= Examples.abs_norm f.
Proof.
  unfold Examples.abs_norm. induction (concat f) as [|x l IH]; simpl; [lra|].
  pose proof (Rabs_pos x). lra.
Qed.

(** X4.  For a positive tolerance and a method of order at least 2 the
    clamped scale factor is defined for every positive error estimate and
    does not grow with it: a larger estimate never gives a larger factor. *)
Theorem scale_factor_decreases_with_error (tol e1 e2 : R) (order : Z) :
  0 < tol -> (2 <= order)%Z -> 0 < e1 -> e1 <= e2 ->
  exists q1 q2,
    Adaptive.clamped_scale_factor tol e1 order = Ok q1 /\
    Adaptive.clamped_scale_factor tol e2 order = Ok q2 /\
    q2 <= q1.
Proof.
  intros Htol Hord He1 He12.
  assert (Hr1 : 0 < tol / e1) by (apply Rdiv_lt_0_compat; lra).
  assert (Hr2 : 0 < tol / e2) by (apply Rdiv_lt_0_compat; lra).
  rewrite (clamped_scale_factor_value tol e1 order) by (try lra; try lia).
  rewrite (clamped_scale_factor_value tol e2 order) by (try lra; try lia).
  do 2 eexists. split; [reflexivity|]. split; [reflexivity|].
  assert (Hle : tol / e2 <= tol / e1).
  { unfold Rdiv. apply Rmult_le_compat_l; [lra|].
    apply Rinv_le_contravar; lra. }
  pose proof (Rpower_le_base _ _ _ Hr2 Hle (exponent_positive _ Hord)) as Hp.
  apply Rle_max_compat_l. apply Rle_min_compat_l. lra.
Qed.

Lemma scale_factor_decreases_with_error_witness :
  exists q1 q2,
    Adaptive.clamped_scale_factor 1 (1 / 4) 2 = Ok q1 /\
    Adaptive.clamped_scale_factor 1 2 2 = Ok q2 /\
    q2 <= q1.
Proof.
  apply (scale_factor_decreases_with_error 1 (1 / 4) 2 2); try lra. lia.
Defined.

(** ** Passes of the adaptive loop *)

Section MoreAdaptive.

Variable linalg_solve : matrix -> list R -> result (list R).
Variable norm : Function -> R.

Lemma attempt_accepted_inv (s s' : Adaptive.AdaptiveTimeStepper) (err dtnew : R) :
  Adaptive.attempt linalg_solve norm s = Adaptive.Accepted err dtnew s' ->
  exists q,
    fst (Adaptive.after_solve s) = Ok tt /\
    fst (Adaptive.after_estimate norm s) = Ok err /\
    Adaptive.clamped_scale_factor (Adaptive.tol s) err
      (order (butcher_tableau (Adaptive.base s))) = Ok q /\
    dtnew = q * dt (Adaptive.base s) /\
    err < Adaptive.tol s /\
    Adaptive.dt_min s < dtnew /\
    fst (_update linalg_solve (snd (Adaptive.after_solve s))) = Ok tt /\
    dt (Adaptive.base s') = dtnew /\
    Adaptive.dt_min s' = Adaptive.dt_min s.
Proof.
  rewrite attempt_unfold.
  destruct (after_estimate_frame norm s) as (_ & _ & Hmin).
  destruct (fst (Adaptive.after_solve s)) as [[]|]; [|discriminate].
  destruct (fst (Adaptive.after_estimate norm s)) as [err0|]; [|discriminate].
  destruct (Adaptive.clamped_scale_factor _ _ _) as [q|] eqn:Eq; [|discriminate].
  cbv zeta.
  destruct (Rge_dec _ _); [discriminate|].
  destruct (Rle_dec _ _); [discriminate|].
  destruct (fst (_update _ _)) as [[]|]; [|discriminate].
  intro H. injection H as <- <- <-. exists q. simpl.
  repeat split; try easy; lra.
Qed.

Lemma attempt_rejected_inv (s s' : Adaptive.AdaptiveTimeStepper) :
  Adaptive.attempt linalg_solve norm s = Adaptive.Rejected s' ->
  exists err q,
    fst (Adaptive.after_estimate norm s) = Ok err /\
    Adaptive.clamped_scale_factor (Adaptive.tol s) err
      (order (butcher_tableau (Adaptive.base s))) = Ok q /\
    Adaptive.tol s <= err /\
    dt (Adaptive.base s') = q * dt (Adaptive.base s).
Proof.
  rewrite attempt_unfold.
  destruct (fst (Adaptive.after_solve s)) as [[]|]; [|discriminate].
  destruct (fst (Adaptive.after_estimate norm s)) as [err0|]; [|discriminate].
  destruct (Adaptive.clamped_scale_factor _ _ _) as [q|] eqn:Eq; [|discriminate].
  cbv zeta.
  destruct (Rge_dec _ _).
  - intro H. injection H as <-. exists err0, q. simpl.
    repeat split; try easy; lra.
  - destruct (Rle_dec _ _); [discriminate|].
    destruct (fst (_update _ _)); discriminate.
Qed.

Lemma estimate_is_a_norm (s : Adaptive.AdaptiveTimeStepper) (err : R) :
  fst (Adaptive.after_estimate norm s) = Ok err -> exists e, err = norm e.
Proof.
  unfold Adaptive.after_estimate, Adaptive._estimate_error.
  destruct (accumulate_stages _ _ _ _ _ _) as [[[]|x] e]; simpl;
    [|discriminate].
  intro H. injection H as <-. now exists e.
Qed.

Lemma rejected_factor_bounds (tol err q : R) (order : Z) :
  0 < tol -> (2 <= order)%Z -> tol <= err ->
  Adaptive.clamped_scale_factor tol err order = Ok q ->
  0.1 <= q <= 0.84.
Proof.
  intros Htol Hord Hge Hq.
  assert (Hr : 0 < tol / err <= 1).
  { split; [apply Rdiv_lt_0_compat; lra|].
    replace 1 with (err / err) by (field; lra). unfold Rdiv.
    apply Rmult_le_compat_r; [|lra]. left. apply Rinv_0_lt_compat. lra. }
  rewrite (clamped_scale_factor_formula _ _ _ _ Hq) by apply Hr.
  pose proof (Rpower_le_1 _ _ Hr (exponent_positive _ Hord)) as Hp.
  split; [apply Rmax_l|].
  apply Rmax_lub; [lra|]. eapply Rle_trans; [apply Rmin_r|]. lra.
Qed.

Lemma accepted_factor_bounds (tol err q : R) (order : Z) :
  (2 <= order)%Z -> 0 < err -> err < tol ->
  Adaptive.clamped_scale_factor tol err order = Ok q ->
  0.84 < q <= 4.0.
Proof.
  intros Hord He Hlt Hq.
  assert (Hr : 1 < tol / err).
  { replace 1 with (err / err) by (field; lra). unfold Rdiv.
    apply Rmult_lt_compat_r; [apply Rinv_0_lt_compat|]; lra. }
  rewrite (clamped_scale_factor_formula _ _ _ _ Hq) by lra.
  pose proof (Rpower_gt_1 _ _ Hr (exponent_positive _ Hord)) as Hp.
  split.
  - eapply Rlt_le_trans; [|apply Rmax_r].
    apply Rmin_glb_lt; lra.
  - apply Rmax_lub; [lra|apply Rmin_l].
Qed.

(** X5.  An accepted pass commits the same update as the base stepper: the
    [u0] it leaves is the [u0] that [TimeStepper.advance] leaves on the same
    base stepper, and that call returns as well. *)
Theorem accepted_pass_updates_like_base (s s' : Adaptive.AdaptiveTimeStepper)
  (err dtnew : R) :
  Adaptive.attempt linalg_solve norm s = Adaptive.Accepted err dtnew s' ->
  fst (RK.advance linalg_solve (Adaptive.base s)) = Ok tt /\
  u0 (Adaptive.base s') = u0 (snd (RK.advance linalg_solve (Adaptive.base s))).
Proof.
  intro H. pose proof (attempt_frame linalg_solve norm s) as Hf.
  rewrite H in Hf. destruct Hf as [Hu _].
  destruct (attempt_accepted_inv _ _ _ _ H) as (q & Hs & _ & _ & _ & _ & _ & Hup & _).
  unfold Adaptive.after_solve in *. unfold RK.advance.
  destruct (solver_solve (refresh_bcs (Adaptive.base s))) as [[[]|e] bs];
    simpl in *; [|discriminate].
  split; [exact Hup|exact Hu].
Qed.

(** X6.  The step size that [advance] returns, and leaves in [dt], is
    strictly above [dt_min]. *)
Theorem returned_step_above_minimum (fuel : nat)
  (st st' : Adaptive.AdaptiveTimeStepper) (err dtnew : R) :
  Adaptive.advance linalg_solve norm fuel st = (Adaptive.Returns err dtnew, st') ->
  Adaptive.dt_min st < dtnew /\
  Adaptive.dt_min st' < dt (Adaptive.base st') /\
  Adaptive.dt_min st' = Adaptive.dt_min st.
Proof.
  intro H.
  destruct (advance_returns_inv linalg_solve norm _ _ _ _ _ H)
    as (_ & st_a & _ & Hacc & _ & Hmin & _).
  destruct (attempt_accepted_inv _ _ _ _ Hacc)
    as (q & _ & _ & _ & _ & _ & Hgt & _ & Hdt & Hmin').
  rewrite Hdt, Hmin', Hmin in *. now repeat split.
Qed.

(** X7.  With a positive tolerance, a positive step, a method of order at
    least 2 and a norm that is never negative, a rejected pass shrinks [dt]
    to between 0.1 and 0.84 times its value, and an accepted pass predicts
    a step between 0.84 (excluded) and 4 times the step taken (over the
    reals). *)
Theorem pass_step_bounds (s : Adaptive.AdaptiveTimeStepper) :
  (forall f, 0 <= norm f) ->
  0 < Adaptive.tol s ->
  0 < dt (Adaptive.base s) ->
  (2 <= order (butcher_tableau (Adaptive.base s)))%Z ->
  match Adaptive.attempt linalg_solve norm s with
  | Adaptive.Rejected s' =>
      0.1 * dt (Adaptive.base s) <= dt (Adaptive.base s')
        <= 0.84 * dt (Adaptive.base s)
  | Adaptive.Accepted _ dtnew s' =>
      0.84 * dt (Adaptive.base s) < dtnew <= 4.0 * dt (Adaptive.base s) /\
      dt (Adaptive.base s') = dtnew
  | Adaptive.Raised _ _ _ => True
  end.
Proof.
  intros Hnorm Htol Hdt Hord.
  destruct (Adaptive.attempt linalg_solve norm s) as [s'|err dtnew s'|] eqn:E;
    [| |exact I].
  - destruct (attempt_rejected_inv _ _ E) as (err & q & _ & Hq & Hge & ->).
    pose proof (rejected_factor_bounds _ _ _ _ Htol Hord Hge Hq). nra.
  - destruct (attempt_accepted_inv _ _ _ _ E)
      as (q & _ & He & Hq & -> & Hlt & _ & _ & Hd & _).
    destruct (estimate_is_a_norm _ _ He) as [e ->].
    assert (Hne : norm e <> 0).
    { intro Hz. rewrite Hz in Hq. unfold Adaptive.clamped_scale_factor,
        Adaptive.scale_factor in Hq. now rewrite truediv_zero in Hq. }
    assert (Hpos : 0 < norm e) by (specialize (Hnorm e); lra).
    pose proof (accepted_factor_bounds _ _ _ _ Hord Hpos Hlt Hq).
    split; [nra|exact Hd].
Qed.

(** X8.  Under the same conditions the step of the [k]-th pass of one call
    (counting from 0) lies between [0.1^k] and [0.84^k] times the step the
    call started with. *)
Theorem step_after_rejections (fuel : nat) :
  forall (st s_k : Adaptive.AdaptiveTimeStepper) (k : nat),
    0 < Adaptive.tol st ->
    0 < dt (Adaptive.base st) ->
    (2 <= order (butcher_tableau (Adaptive.base st)))%Z ->
    nth_error (Adaptive.attempts linalg_solve norm fuel st) k = Some s_k ->
    0.1 ^ k * dt (Adaptive.base st) <= dt (Adaptive.base s_k)
      <= 0.84 ^ k * dt (Adaptive.base st).
Proof.
  induction fuel as [|fuel IH]; intros st s_k k Htol Hdt Hord Hk; simpl in Hk.
  - destruct k; discriminate.
  - destruct k as [|k]; simpl in Hk.
    + injection Hk as <-. simpl. lra.
    + destruct (Adaptive.attempt linalg_solve norm st) as [s1| |] eqn:E;
        try (destruct k; discriminate).
      destruct (attempt_rejected_frame linalg_solve norm _ _ E)
        as (Ht & _ & Hb & _ & _).
      destruct (attempt_rejected_inv _ _ E) as (err & q & _ & Hq & Hge & Hd).
      pose proof (rejected_factor_bounds _ _ _ _ Htol Hord Hge Hq) as Hqb.
      assert (Hdt1 : 0 < dt (Adaptive.base s1)) by (rewrite Hd; nra).
      specialize (IH s1 s_k k).
      rewrite Ht, Hb in IH. specialize (IH Htol Hdt1 Hord Hk).
      rewrite Hd in IH. simpl.
      assert (0 <= 0.1 ^ k) by (apply pow_le; lra).
      assert (0 <= 0.84 ^ k) by (apply pow_le; lra).
      assert (Hlo : 0.1 * dt (Adaptive.base st) <= q * dt (Adaptive.base st))
        by (apply Rmult_le_compat_r; lra).
      assert (Hhi : q * dt (Adaptive.base st) <= 0.84 * dt (Adaptive.base st))
        by (apply Rmult_le_compat_r; lra).
      split.
      * apply Rle_trans with (0.1 ^ k * (q * dt (Adaptive.base st))); [|lra].
        replace (0.1 * 0.1 ^ k * dt (Adaptive.base st))
          with (0.1 ^ k * (0.1 * dt (Adaptive.base st))) by ring.
        now apply Rmult_le_compat_l.
      * apply Rle_trans with (0.84 ^ k * (q * dt (Adaptive.base st))); [lra|].
        replace (0.84 * 0.84 ^ k * dt (Adaptive.base st))
          with (0.84 ^ k * (0.84 * dt (Adaptive.base st))) by ring.
        now apply Rmult_le_compat_l.
Qed.

(** X9.  With a tolerance that is not positive and a norm that is never
    negative, [advance] never returns: no pass can be accepted. *)
Theorem nonpositive_tolerance_never_returns (fuel : nat)
  (st st' : Adaptive.AdaptiveTimeStepper) (err dtnew : R) :
  (forall f, 0 <= norm f) ->
  Adaptive.tol st <= 0 ->
  Adaptive.advance linalg_solve norm fuel st <> (Adaptive.Returns err dtnew, st').
Proof.
  intros Hnorm Htol H.
  destruct (advance_returns_inv linalg_solve norm _ _ _ _ _ H)
    as (_ & st_a & _ & Hacc & Ht & _).
  destruct (attempt_accepted_inv _ _ _ _ Hacc) as (q & _ & He & _ & _ & Hlt & _).
  destruct (estimate_is_a_norm _ _ He) as [e ->].
  specialize (Hnorm e). lra.
Qed.

End MoreAdaptive.

(** ** The passes of the example pair *)

Lemma pair_advance_accepts :
  Adaptive.advance Examples.diag_solve Examples.abs_norm 1
    (Examples.pair_stepper (1 / 4) 1 0) =
  (Adaptive.Returns (1 / 4) 3.36,
   snd (Adaptive.advance Examples.diag_solve Examples.abs_norm 1
          (Examples.pair_stepper (1 / 4) 1 0))).
Proof. rewrite <- pair_run_accepts. apply surjective_pairing. Qed.

Lemma pair_attempt_accepts :
  exists s',
    Adaptive.attempt Examples.diag_solve Examples.abs_norm
      (Examples.pair_stepper (1 / 4) 1 0) = Adaptive.Accepted (1 / 4) 3.36 s'.
Proof.
  pose proof pair_run_accepts as H. simpl in H.
  destruct (Adaptive.attempt Examples.diag_solve Examples.abs_norm
              (Examples.pair_stepper (1 / 4) 1 0)) as [s1|e d s1|site e s1];
    simpl in H; try discriminate.
  injection H as -> ->. now exists s1.
Qed.

Lemma pair_attempt_rejects :
  Adaptive.attempt Examples.diag_solve Examples.abs_norm
    (Examples.pair_stepper 2 1 0) =
  Adaptive.Rejected
    (Adaptive.set_base
       (snd (Adaptive.after_estimate Examples.abs_norm (Examples.pair_stepper 2 1 0)))
       (set_dt (snd (Adaptive.after_solve (Examples.pair_stepper 2 1 0)))
          (0.84 * (1 / 2) * 1))).
Proof.
  rewrite attempt_unfold, pair_after_solve, pair_after_estimate.
  cbn [fst snd].
  replace (Rabs 2) with 2 by (symmetry; apply Rabs_right; lra).
  simpl Adaptive.tol. simpl order. simpl dt.
  rewrite clamped_scale_factor_order_2 by lra. cbv zeta.
  destruct (Rge_dec 2 1); [|lra].
  reflexivity.
Qed.

Lemma accepted_pass_updates_like_base_witness :
  exists s',
    Adaptive.attempt Examples.diag_solve Examples.abs_norm
      (Examples.pair_stepper (1 / 4) 1 0) = Adaptive.Accepted (1 / 4) 3.36 s' /\
    fst (RK.advance Examples.diag_solve (Examples.pair_base (1 / 4))) = Ok tt /\
    u0 (Adaptive.base s') =
      u0 (snd (RK.advance Examples.diag_solve (Examples.pair_base (1 / 4)))).
Proof.
  destruct pair_attempt_accepts as [s' H]. exists s'. split; [exact H|].
  exact (accepted_pass_updates_like_base Examples.diag_solve Examples.abs_norm
           (Examples.pair_stepper (1 / 4) 1 0) s' (1 / 4) 3.36 H).
Defined.

Lemma returned_step_above_minimum_witness :
  Adaptive.dt_min (Examples.pair_stepper (1 / 4) 1 0) < 3.36.
Proof.
  exact (proj1 (returned_step_above_minimum Examples.diag_solve Examples.abs_norm
                  1 (Examples.pair_stepper (1 / 4) 1 0) _ (1 / 4) 3.36
                  pair_advance_accepts)).
Defined.

Lemma pass_step_bounds_witness :
  match Adaptive.attempt Examples.diag_solve Examples.abs_norm
          (Examples.pair_stepper 2 1 0) with
  | Adaptive.Rejected s' =>
      0.1 * dt (Adaptive.base (Examples.pair_stepper 2 1 0))
        <= dt (Adaptive.base s')
        <= 0.84 * dt (Adaptive.base (Examples.pair_stepper 2 1 0))
  | Adaptive.Accepted _ dtnew s' =>
      0.84 * dt (Adaptive.base (Examples.pair_stepper 2 1 0)) < dtnew
        <= 4.0 * dt (Adaptive.base (Examples.pair_stepper 2 1 0)) /\
      dt (Adaptive.base s') = dtnew
  | Adaptive.Raised _ _ _ => True
  end.
Proof.
  apply (pass_step_bounds Examples.diag_solve Examples.abs_norm
           (Examples.pair_stepper 2 1 0)).
  - exact abs_norm_nonneg.
  - simpl. lra.
  - simpl. lra.
  - simpl. lia.
Defined.

Lemma step_after_rejections_witness :
  exists s1,
    nth_error (Adaptive.attempts Examples.diag_solve Examples.abs_norm 2
                 (Examples.pair_stepper 2 1 0)) 1 = Some s1 /\
    0.1 ^ 1 * dt (Adaptive.base (Examples.pair_stepper 2 1 0))
      <= dt (Adaptive.base s1)
      <= 0.84 ^ 1 * dt (Adaptive.base (Examples.pair_stepper 2 1 0)).
Proof.
  eexists. split.
  - simpl. rewrite pair_attempt_rejects. reflexivity.
  - apply (step_after_rejections Examples.diag_solve Examples.abs_norm 2
             (Examples.pair_stepper 2 1 0) _ 1).
    + simpl. lra.
    + simpl. lra.
    + simpl. lia.
    + simpl. rewrite pair_attempt_rejects. reflexivity.
Defined.

Lemma nonpositive_tolerance_never_returns_witness :
  Adaptive.advance Examples.diag_solve Examples.abs_norm 3
    (Examples.pair_stepper 1 0 0) <>
  (Adaptive.Returns 0 0, Examples.pair_stepper 1 0 0).
Proof.
  apply (nonpositive_tolerance_never_returns Examples.diag_solve
           Examples.abs_norm 3 (Examples.pair_stepper 1 0 0)).
  - exact abs_norm_nonneg.
  - simpl. lra.
Defined.

(** ** More on the DG stepper *)

Lemma assign_fields_keeps_length (UUs : list dat) (nf : nat) (k : Z) :
  forall u0bits i,
    length (snd (DG.assign_fields UUs nf k i u0bits)) = length u0bits.
Proof.
  induction u0bits as [|bit rest IH]; intro i; simpl; [reflexivity|].
  destruct (DG.getitemZ UUs _) as [d|e]; [|reflexivity].
  specialize (IH (S i)).
  destruct (DG.assign_fields UUs nf k (S i) rest) as [r rest']. simpl in *.
  now rewrite IH.
Qed.

Lemma assign_fields_succeeds_iff (UUs : list dat) (nf : nat) (k : Z) :
  (0 <= k)%Z ->
  forall u0bits i,
    fst (DG.assign_fields UUs nf k i u0bits) = Ok tt <->
    (u0bits = [] \/ (nf * Z.to_nat k + i + length u0bits <= length UUs)%nat).
Proof.
  intro Hk. induction u0bits as [|bit rest IH]; intro i; simpl.
  - split; [now left|reflexivity].
  - rewrite getitemZ_nonneg by lia.
    replace (Z.to_nat (Z.of_nat nf * k + Z.of_nat i))
      with (nf * Z.to_nat k + i)%nat by nia.
    unfold getitem.
    destruct (nth_error UUs (nf * Z.to_nat k + i)) as [d|] eqn:E.
    + assert (Hlt : (nf * Z.to_nat k + i < length UUs)%nat)
        by (apply nth_error_Some; congruence).
      specialize (IH (S i)).
      destruct (DG.assign_fields UUs nf k (S i) rest) as [r rest']. simpl in *.
      rewrite IH. split.
      * intros [->|H]; right; simpl; lia.
      * intros [H|H]; [discriminate|].
        destruct rest; [now left|right; simpl in *; lia].
    + apply nth_error_None in E. simpl. split; [discriminate|].
      intros [H|H]; [discriminate|lia].
Qed.

(** X11.  For a stepper with [order >= 0], [advance] returns exactly when
    the solve returns and the stage unknown has a component at every index
    [num_fields*order + i] that the loop reads; when the solve raises,
    [advance] raises the same, and [u0] and the three counters are as
    before: a failed solve is not counted. *)
Theorem dg_advance_succeeds_iff (st : DG.Stepper) :
  (0 <= DG.order st)%Z ->
  (fst (DG.advance st) = Ok tt <->
   DG.status (DG.solve (DG.solver st) (DG.stage_problem st)) = Ok tt /\
   (DG.u0 st = [] \/
    (DG.num_fields st * Z.to_nat (DG.order st) + length (DG.u0 st) <=
     length (DG.stage_values (DG.solve (DG.solver st) (DG.stage_problem st))))%nat))
  /\
  (forall e,
     DG.status (DG.solve (DG.solver st) (DG.stage_problem st)) = Raise e ->
     fst (DG.advance st) = Raise e /\
     DG.u0 (snd (DG.advance st)) = DG.u0 st /\
     DG.solver_stats (snd (DG.advance st)) = DG.solver_stats st).
Proof.
  intro Hord. unfold DG.advance. split.
  - destruct (DG.status _) as [[]|e].
    + pose proof (assign_fields_succeeds_iff
                    (DG.stage_values (DG.solve (DG.solver st) (DG.stage_problem st)))
                    (DG.num_fields st) (DG.order st) Hord (DG.u0 st) 0) as H.
      destruct (DG.assign_fields _ _ _ _ _) as [r u]. simpl in *.
      rewrite H, Nat.add_0_r. split; [now split|now intros [_ H']].
    + simpl. split; [discriminate|]. now intros [H _].
  - intros e ->. now repeat split.
Qed.

Lemma dg_advance_succeeds_iff_witness :
  fst (DG.advance Examples.dg1_stepper) = Ok tt <->
  DG.status (DG.solve (DG.solver Examples.dg1_stepper)
               (DG.stage_problem Examples.dg1_stepper)) = Ok tt /\
  (DG.u0 Examples.dg1_stepper = [] \/
   (DG.num_fields Examples.dg1_stepper * Z.to_nat (DG.order Examples.dg1_stepper)
    + length (DG.u0 Examples.dg1_stepper) <=
    length (DG.stage_values
              (DG.solve (DG.solver Examples.dg1_stepper)
                 (DG.stage_problem Examples.dg1_stepper))))%nat).
Proof.
  apply (proj1 (dg_advance_succeeds_iff Examples.dg1_stepper
                  ltac:(simpl; lia))).
Defined.

Lemma dg_advance_frame (st : DG.Stepper) :
  DG.t (snd (DG.advance st)) = DG.t st /\
  DG.dt (snd (DG.advance st)) = DG.dt st /\
  DG.order (snd (DG.advance st)) = DG.order st /\
  DG.num_fields (snd (DG.advance st)) = DG.num_fields st /\
  DG.el (snd (DG.advance st)) = DG.el st /\
  DG.bigF (snd (DG.advance st)) = DG.bigF st /\
  DG.solver (snd (DG.advance st)) = DG.solver st /\
  length (DG.u0 (snd (DG.advance st))) = length (DG.u0 st) /\
  (DG.num_steps st <= DG.num_steps (snd (DG.advance st)) <= DG.num_steps st + 1)%Z.
Proof.
  unfold DG.advance.
  destruct (DG.status _) as [[]|e]; simpl.
  - pose proof (assign_fields_keeps_length
                  (DG.stage_values (DG.solve (DG.solver st) (DG.stage_problem st)))
                  (DG.num_fields st) (DG.order st) (DG.u0 st) 0) as H.
    destruct (DG.assign_fields _ _ _ _ _) as [r u]. simpl in *.
    repeat split; try easy; lia.
  - repeat split; lia.
Qed.

(** X12.  However many calls of [advance] are made and however they end,
    the stepper's [t], [dt], [order], element, form and solver are the ones
    it was built with, [u0] keeps its number of fields, and the step counter
    never decreases and grows by at most the number of calls. *)
Theorem dg_advance_n_frame (n : nat) :
  forall st : DG.Stepper,
    DG.t (snd (DG.advance_n n st)) = DG.t st /\
    DG.dt (snd (DG.advance_n n st)) = DG.dt st /\
    DG.order (snd (DG.advance_n n st)) = DG.order st /\
    DG.el (snd (DG.advance_n n st)) = DG.el st /\
    DG.bigF (snd (DG.advance_n n st)) = DG.bigF st /\
    DG.solver (snd (DG.advance_n n st)) = DG.solver st /\
    length (DG.u0 (snd (DG.advance_n n st))) = length (DG.u0 st) /\
    (DG.num_steps st <= DG.num_steps (snd (DG.advance_n n st))
       <= DG.num_steps st + Z.of_nat n)%Z.
Proof.
  induction n as [|n IH]; intro st.
  - simpl. repeat split; lia.
  - cbn [DG.advance_n].
    destruct (dg_advance_frame st) as (Ht & Hdt & Ho & _ & He & Hf & Hs & Hl & Hn).
    destruct (DG.advance st) as [[[]|e] st1]; cbn [snd] in *.
    + destruct (IH st1) as (Ht' & Hdt' & Ho' & He' & Hf' & Hs' & Hl' & Hn').
      repeat split; try congruence; lia.
    + repeat split; try congruence; lia.
Qed.

(** ** What the DG constructor establishes *)

Lemma ref_el_eqb_eq (a c : DG.ReferenceElement) :
  DG.ref_el_eqb a c = true <-> a = c.
Proof.
  unfold DG.ref_el_eqb. destruct a as [d1 s1], c as [d2 s2]. simpl.
  rewrite andb_true_iff, !Nat.eqb_eq. split.
  - now intros [-> ->].
  - intro H. now injection H.
Qed.

Lemma list_eq_dec_b_eq (l m : list nat) : list_eq_dec_b l m = true <-> l = m.
Proof.
  unfold list_eq_dec_b. destruct (list_eq_dec Nat.eq_dec l m); split;
    try easy; discriminate.
Qed.

Section MoreConstruction.

Variable fiat : DG.FIAT.
Variable extract_terms : DG.ufl_form -> DG.ufl_form * DG.ufl_form.
Variable strip_dt_form : DG.ufl_form -> DG.ufl_form.
Variable linalg_solve_matrix : matrix -> matrix -> result matrix.

Lemma form_builder_ok_inv (F : DG.SemiDiscreteForm) (L : DG.FiatElement)
  (Q : DG.QuadratureRule) (u : Function) (Fnew : DG.ufl_form) (UU : list dat) :
  DG.getFormDiscGalerkin extract_terms strip_dt_form linalg_solve_matrix F L Q u
    = Ok (Fnew, UU) ->
  DG.spatial_dimension (DG.ref_el Q) = 1%nat /\
  DG.get_reference_element L = DG.ref_el Q /\
  DG.test_space F = DG.function_space u /\
  UU = concat (repeat (map (fun d => vzero (length d)) u) (DG.space_dimension L)) /\
  (0 < DG.space_dimension L)%nat.
Proof.
  unfold DG.getFormDiscGalerkin. intro H.
  destruct (Nat.eqb_spec (DG.spatial_dimension (DG.ref_el Q)) 1) as [Hd|];
    [|discriminate]. cbn [negb] in H.
  destruct (DG.ref_el_eqb _ _) eqn:Hr; [|discriminate]. cbn [negb] in H.
  destruct (list_eq_dec_b _ _) eqn:Hs; [|discriminate]. cbn [negb] in H.
  apply ref_el_eqb_eq in Hr. apply list_eq_dec_b_eq in Hs.
  cbv zeta in H.
  destruct (Nat.eqb_spec (DG.space_dimension L) 0) as [|Hns]; [discriminate|].
  destruct (DG.tabulate L (DG.get_points Q)) as [bv0 bdv0].
  do 6 step_bind H.
  destruct (extract_terms (DG.form F)) as [time remainder].
  do 2 step_bind H. injection H as _ <-.
  repeat split; try easy. lia.
Qed.

(** X13.  A stepper that [__init__] returns satisfies what the constructor
    checked and set: the order is not negative, the rule has at least
    [order+1] points and lives on the interval of the element, the test
    space is the space of [u0], the element is the one picked for the order
    and basis type and has at least one degree of freedom (with none, the
    product of spaces is taken over an empty sequence and the constructor
    raises), the counters are 0, and the stage unknown is zero with one
    component per stage and field. *)
Theorem dg_init_postconditions (F : DG.SemiDiscreteForm) (order0 : Z)
  (t0 dt0 : R) (u : Function) (basis_type0 : option string)
  (quadrature0 : option DG.QuadratureRule) (solver0 : DG.NLVS) (st : DG.Stepper) :
  DG.__init__ fiat extract_terms strip_dt_form linalg_solve_matrix F order0
    t0 dt0 u basis_type0 quadrature0 solver0 = Ok st ->
  (0 <= order0)%Z /\
  DG.order st = order0 /\ DG.u0 st = u /\ DG.t st = t0 /\ DG.dt st = dt0 /\
  DG.num_fields st = length u /\
  DG.el st = DG.time_element fiat order0 basis_type0 /\
  DG.quadrature st = DG.chosen_quadrature fiat order0 quadrature0 /\
  (order0 + 1 <= Z.of_nat (DG.np_size (DG.get_points (DG.quadrature st))))%Z /\
  DG.spatial_dimension (DG.ref_el (DG.quadrature st)) = 1%nat /\
  DG.get_reference_element (DG.el st) = DG.ref_el (DG.quadrature st) /\
  DG.test_space F = DG.function_space u /\
  DG.solver_stats st = (0, 0, 0)%Z /\
  DG.UU st =
    concat (repeat (map (fun d => vzero (length d)) u)
              (DG.space_dimension (DG.el st))) /\
  length (DG.UU st) = (DG.space_dimension (DG.el st) * length u)%nat /\
  (0 < DG.space_dimension (DG.el st))%nat.
Proof.
  unfold DG.__init__.
  destruct (Z.leb_spec 0 order0) as [Hord|]; [|discriminate]. cbn [negb].
  destruct (DG.quadrature_check _ _) eqn:Hchk; [|discriminate]. cbn [negb].
  destruct (DG.getFormDiscGalerkin _ _ _ _ _ _ _) as [[f uu]|e] eqn:E;
    [|discriminate]. cbn [Py.bind].
  intro H. injection H as <-. simpl.
  destruct (form_builder_ok_inv _ _ _ _ _ _ E) as (Hd & Hr & Hs & Hu & Hpos).
  unfold DG.quadrature_check in Hchk. apply Z.leb_le in Hchk.
  repeat split; try easy.
  rewrite Hu, concat_repeat_length. now rewrite length_map.
Qed.

(** X14.  A stepper built by [__init__] for an element with [order+1]
    degrees of freedom never runs off the stage unknown: with a solver that
    always returns, with one component per degree of freedom of the element
    and field, every call of [advance] returns. *)
Theorem built_stepper_advances (F : DG.SemiDiscreteForm) (order0 : Z)
  (t0 dt0 : R) (u : Function) (basis_type0 : option string)
  (quadrature0 : option DG.QuadratureRule) (solver0 : DG.NLVS) (st : DG.Stepper) :
  DG.__init__ fiat extract_terms strip_dt_form linalg_solve_matrix F order0
    t0 dt0 u basis_type0 quadrature0 solver0 = Ok st ->
  DG.space_dimension (DG.time_element fiat order0 basis_type0)
    = (Z.to_nat order0 + 1)%nat ->
  (forall p,
     DG.status (DG.solve solver0 p) = Ok tt /\
     length (DG.stage_values (DG.solve solver0 p)) =
       (DG.space_dimension (DG.time_element fiat order0 basis_type0)
        * length (DG.p_u0 p))%nat) ->
  forall n, fst (DG.advance_n n st) = Ok tt.
Proof.
  intros Hinit Hdim Hsolver n.
  assert (Hinv : (0 <= DG.order st)%Z /\ DG.order st = order0 /\
                 DG.solver st = solver0 /\ DG.num_fields st = length (DG.u0 st)).
  { unfold DG.__init__ in Hinit.
    destruct (Z.leb_spec 0 order0) as [Hord|]; [|discriminate]. cbn [negb] in Hinit.
    destruct (DG.quadrature_check _ _); [|discriminate]. cbn [negb] in Hinit.
    destruct (DG.getFormDiscGalerkin _ _ _ _ _ _ _) as [[f uu]|e];
      [|discriminate]. cbn [Py.bind] in Hinit.
    injection Hinit as <-. simpl. repeat split; try reflexivity. exact Hord. }
  rewrite Hdim in Hsolver. clear Hinit Hdim. revert st Hinv.
  induction n as [|n IH]; intros st (Hord & Ho & Hs & Hnf); [reflexivity|].
  cbn [DG.advance_n].
  destruct (dg_advance_frame st) as (_ & _ & Ho' & Hnf' & _ & _ & Hs' & Hl & _).
  assert (Hok : fst (DG.advance st) = Ok tt).
  { unfold DG.advance. rewrite Hs.
    destruct (Hsolver (DG.stage_problem st)) as [Hst Hlen]. rewrite Hst.
    pose proof (proj2 (assign_fields_succeeds_iff
                  (DG.stage_values (DG.solve solver0 (DG.stage_problem st)))
                  (DG.num_fields st) (DG.order st) Hord (DG.u0 st) 0)) as H.
    destruct (DG.assign_fields _ _ _ _ _) as [r u']. simpl in *.
    apply H. right. rewrite Hlen, Hnf, Ho. lia. }
  destruct (DG.advance st) as [[[]|e] st1]; simpl in *; [|discriminate].
  apply IH. repeat split; congruence.
Qed.

End MoreConstruction.

Lemma dg_init_postconditions_witness :
  exists st,
    DG.__init__ Examples.small_fiat Examples.split_sum Examples.keep_form
      Examples.diag_solve_matrix Examples.decay_form 1 0 0.1 [[1]] None None
      Examples.dg_decay_solver = Ok st /\
    DG.solver_stats st = (0, 0, 0)%Z /\
    length (DG.UU st) = 2%nat.
Proof.
  eexists. split; [reflexivity|].
  split;
    apply (dg_init_postconditions Examples.small_fiat Examples.split_sum
             Examples.keep_form Examples.diag_solve_matrix Examples.decay_form
             1 0 0.1 [[1]] None None Examples.dg_decay_solver _ eq_refl).
Defined.

Lemma built_stepper_advances_witness :
  exists st,
    DG.__init__ Examples.small_fiat Examples.split_sum Examples.keep_form
      Examples.diag_solve_matrix Examples.decay_form 0 0 0.1 [[1]] None None
      Examples.dg_decay_solver = Ok st /\
    fst (DG.advance_n 4 st) = Ok tt.
Proof.
  eexists. split; [reflexivity|].
  apply (built_stepper_advances Examples.small_fiat Examples.split_sum
           Examples.keep_form Examples.diag_solve_matrix Examples.decay_form
           0 0 0.1 [[1]] None None Examples.dg_decay_solver _ eq_refl).
  - reflexivity.
  - intro p. split; [reflexivity|]. simpl. rewrite !length_map.
    symmetry. apply Nat.add_0_r.
Defined.

(** ** The terms of [getFormDiscGalerkin] *)

Section MoreForm.

Variable extract_terms : DG.ufl_form -> DG.ufl_form * DG.ufl_form.
Variable strip_dt_form : DG.ufl_form -> DG.ufl_form.
Variable linalg_solve_matrix : matrix -> matrix -> result matrix.

(** X15.  The form that [getFormDiscGalerkin] returns is, term for term:
    for each stage [i] and quadrature point [q], in that order,
    [dt*qwts[q]*basis_vals[i,q]] times the time-derivative part with [v]
    replaced by [v_np[i]], [t] by [t + dt*qpts[q]] and [u0] by
    [(1/dt) * (u_np @ basis_dvals[:,q])]; the jump term; then the same
    products for the remainder with [u0] replaced by
    [u_np @ basis_vals[:,q]].  Row [i] of the two tabulations is row
    [perm[i]] of what the element tabulates. *)
Theorem form_terms_enumerated (F : DG.SemiDiscreteForm) (L : DG.FiatElement)
  (Q : DG.QuadratureRule) (u : Function) (Fnew : DG.ufl_form) (UU : list dat) :
  DG.getFormDiscGalerkin extract_terms strip_dt_form linalg_solve_matrix F L Q u
    = Ok (Fnew, UU) ->
  exists perm basis_vals basis_dvals,
    DG.geometric_perm L = Ok perm /\
    length basis_vals = length perm /\
    length basis_dvals = length perm /\
    (forall i, (i < length perm)%nat ->
       nth i basis_vals [] =
         nth (nth i perm 0%nat) (fst (DG.tabulate L (DG.get_points Q))) [] /\
       nth i basis_dvals [] =
         nth (nth i perm 0%nat) (snd (DG.tabulate L (DG.get_points Q))) []) /\
    DG.summands Fnew =
      DG.stage_terms (strip_dt_form (fst (extract_terms (DG.form F))))
        (concat (DG.get_points Q)) (DG.get_weights Q) basis_vals basis_dvals
        (fun uq => DG.E_mul (DG.E_div (DG.E_real 1) DG.E_dt) uq)
        (DG.space_dimension L)
      ++ DG.jump_term (strip_dt_form (fst (extract_terms (DG.form F))))
      :: DG.stage_terms (snd (extract_terms (DG.form F)))
           (concat (DG.get_points Q)) (DG.get_weights Q) basis_vals basis_vals
           (fun uq => uq) (DG.space_dimension L).
Proof.
  unfold DG.getFormDiscGalerkin. intro H.
  destruct (negb _); [discriminate|].
  destruct (negb _); [discriminate|].
  destruct (negb _); [discriminate|].
  cbv zeta in H.
  destruct (Nat.eqb (DG.space_dimension L) 0); [discriminate|].
  destruct (DG.tabulate L (DG.get_points Q)) as [bv0 bdv0]. cbn [fst snd].
  destruct (DG.geometric_perm L) as [perm|] eqn:Eperm; cbn [Py.bind] in H;
    [|discriminate].
  destruct (DG.take_rows bv0 perm) as [bv|] eqn:Ebv; cbn [Py.bind] in H;
    [|discriminate].
  destruct (DG.take_rows bdv0 perm) as [bdv|] eqn:Ebdv; cbn [Py.bind] in H;
    [|discriminate].
  do 3 step_bind H.
  destruct (extract_terms (DG.form F)) as [time remainder]. cbn [fst snd].
  destruct (DG.stage_loop (strip_dt_form time) _ _ _ _ _ _ _ _) as [F1|] eqn:Es1;
    cbn [Py.bind] in H; [|discriminate].
  destruct (DG.stage_loop remainder _ _ _ _ _ _ _ _) as [F3|] eqn:Es3;
    cbn [Py.bind] in H; [|discriminate].
  injection H as <- <-.
  destruct (take_rows_nth _ _ _ Ebv) as [Hl1 Hn1].
  destruct (take_rows_nth _ _ _ Ebdv) as [Hl2 Hn2].
  exists perm, bv, bdv.
  split; [reflexivity|]. split; [exact Hl1|]. split; [exact Hl2|].
  split; [intros i Hi; split; [now apply Hn1|now apply Hn2]|].
  rewrite (stage_loop_exact _ _ _ _ _ _ _ _ _ _ Es3).
  rewrite summands_form_add by reflexivity.
  rewrite (stage_loop_exact _ _ _ _ _ _ _ _ _ _ Es1).
  simpl. unfold DG.stage_terms. now rewrite <- app_assoc.
Qed.

End MoreForm.

Lemma form_terms_enumerated_witness :
  exists Fnew UU,
    DG.getFormDiscGalerkin Examples.split_sum Examples.keep_form
      Examples.diag_solve_matrix Examples.decay_form
      (DG.CiarletElement Examples.P0) (Examples.midpoint_rule 1) [[1]]
      = Ok (Fnew, UU) /\
    exists perm basis_vals basis_dvals,
      DG.geometric_perm (DG.CiarletElement Examples.P0) = Ok perm /\
      length basis_vals = length perm /\
      length basis_dvals = length perm /\
      (forall i, (i < length perm)%nat ->
         nth i basis_vals [] =
           nth (nth i perm 0%nat)
             (fst (DG.tabulate (DG.CiarletElement Examples.P0)
                     (DG.get_points (Examples.midpoint_rule 1)))) [] /\
         nth i basis_dvals [] =
           nth (nth i perm 0%nat)
             (snd (DG.tabulate (DG.CiarletElement Examples.P0)
                     (DG.get_points (Examples.midpoint_rule 1)))) []) /\
      DG.summands Fnew =
        DG.stage_terms (DG.F_atom "inner(Dt(u), v)*dx")
          (concat (DG.get_points (Examples.midpoint_rule 1)))
          (DG.get_weights (Examples.midpoint_rule 1)) basis_vals basis_dvals
          (fun uq => DG.E_mul (DG.E_div (DG.E_real 1) DG.E_dt) uq) 1
        ++ DG.jump_term (DG.F_atom "inner(Dt(u), v)*dx")
        :: DG.stage_terms (DG.F_atom "inner(u, v)*dx")
             (concat (DG.get_points (Examples.midpoint_rule 1)))
             (DG.get_weights (Examples.midpoint_rule 1)) basis_vals basis_vals
             (fun uq => uq) 1.
Proof.
  eexists. eexists. split; [reflexivity|].
  apply (form_terms_enumerated Examples.split_sum Examples.keep_form
           Examples.diag_solve_matrix Examples.decay_form
           (DG.CiarletElement Examples.P0) (Examples.midpoint_rule 1) [[1]]
           _ _ eq_refl).
Defined.

(** ** The Cahn-Hilliard example script *)

(** X17.  [dfdc] is [200*c*(1-c)*(1-2c)]: it vanishes exactly at [0], [1/2]
    and [1], the two wells and the hump of the potential, and it is odd
    about [1/2]. *)
Theorem dfdc_zeros (cc : R) :
  CahnHilliard.dfdc cc = 200 * cc * (1 - cc) * (1 - 2 * cc) /\
  (CahnHilliard.dfdc cc = 0 <-> cc = 0 \/ cc = 1 / 2 \/ cc = 1) /\
  CahnHilliard.dfdc (1 - cc) = - CahnHilliard.dfdc cc.
Proof.
  assert (Hf : forall x, CahnHilliard.dfdc x = 200 * x * (1 - x) * (1 - 2 * x))
    by (intro x; unfold CahnHilliard.dfdc; ring).
  split; [apply Hf|]. split.
  - rewrite Hf. split.
    + intro H. apply Rmult_integral in H. destruct H as [H|H]; [|right; left; lra].
      apply Rmult_integral in H. destruct H as [H|H]; [|right; right; lra].
      left. lra.
    + intros [->|[->| ->]]; lra.
  - rewrite !Hf. ring.
Qed.

(** X18.  Whatever [np.random.random] draws in [0, 1), the initial data has
    a value in (0.53, 0.73] at every sixth entry, starting with the first,
    and 0 everywhere else. *)
Theorem initial_data_bounds (n : nat) (random : nat -> R) (j : nat) :
  (forall k, 0 <= random k < 1) ->
  (j < n)%nat ->
  length (CahnHilliard.initial_data n random) = n /\
  ((j mod 6 = 0)%nat ->
   0.53 < nth j (CahnHilliard.initial_data n random) 0 <= 0.73) /\
  ((j mod 6 <> 0)%nat -> nth j (CahnHilliard.initial_data n random) 0 = 0).
Proof.
  intros Hr Hj. unfold CahnHilliard.initial_data.
  split; [now rewrite length_map, length_seq|].
  assert (E : nth j
                (map (fun j0 => if (j0 mod 6 =? 0)%nat
                                then 0.63 + 0.2 * (0.5 - random (j0 / 6)%nat)
                                else 0) (seq 0 n)) 0 =
              if (j mod 6 =? 0)%nat
              then 0.63 + 0.2 * (0.5 - random (j / 6)%nat) else 0).
  { apply nth_error_nth. rewrite nth_error_map, nth_error_seq.
    replace (j <? n)%nat with true by (symmetry; now apply Nat.ltb_lt).
    reflexivity. }
  rewrite E. split; intro Hm.
  - rewrite Hm, Nat.eqb_refl. specialize (Hr (j / 6)%nat). lra.
  - now destruct (Nat.eqb_spec (j mod 6) 0).
Qed.

Lemma initial_data_bounds_witness :
  0.53 < nth 6 (CahnHilliard.initial_data 12 (fun _ => 1 / 2)) 0 <= 0.73.
Proof.
  apply (initial_data_bounds 12 (fun _ => 1 / 2) 6).
  - intro k. lra.
  - lia.
  - reflexivity.
Defined.
